(** * Popup-footnote rewriting of [footnote_v2.py]

    A shallow embedding of [create_popup_footnotes] and of the part of the
    BeautifulSoup object model it drives: a store of page elements with
    parent pointers and ordered contents, mutated in place by the engine.
    Node identity is the index of the element in the store, so a node
    that is selected twice is the same object both times. *)

From Stdlib Require Import NArith Ascii String Lia.
From stdpp Require Import list sets strings pretty.

Local Open Scope nat_scope.

(** ** Python strings

    A Python [str] is a sequence of Unicode code points. *)

Abbreviation str := (list N).

Definition lit (s : string) : str := N_of_ascii <$> list_ascii_of_string s.

(** [str(idx)] for a non-negative integer. *)
Definition str_of_nat (n : nat) : str := lit (pretty n).

(** [str.isspace] on one code point ([Py_UNICODE_ISSPACE]). *)
Definition isspace (c : N) : bool :=
  ((9 <=? c) && (c <=? 13) || (28 <=? c) && (c <=? 32)
   || (c =? 133) || (c =? 160) || (c =? 5760)
   || (8192 <=? c) && (c <=? 8202) || (c =? 8232) || (c =? 8233)
   || (c =? 8239) || (c =? 8287) || (c =? 12288))%N.

Fixpoint lstrip (s : str) : str :=
  match s with
  | c :: s' => if isspace c then lstrip s' else s
  | [] => []
  end.

Definition rstrip (s : str) : str := rev (lstrip (rev s)).

(** [s.strip()] *)
Definition strip (s : str) : str := rstrip (lstrip s).

(** [''.join(parts)] *)
Definition join (parts : list str) : str := concat parts.

(** [sep.join(parts)] for a one-character separator. *)
Fixpoint join_with (sep : N) (parts : list str) : str :=
  match parts with
  | [] => []
  | [w] => w
  | w :: ws => w ++ sep :: join_with sep ws
  end.

(** [s.split(sep)] for a one-character separator: never empty. *)
Fixpoint split (sep : N) (s : str) : list str :=
  match s with
  | [] => [[]]
  | c :: s' =>
      if decide (c = sep) then [] :: split sep s'
      else match split sep s' with
           | w :: ws => (c :: w) :: ws
           | [] => [[c]]
           end
  end.

(** The maximal runs of non-whitespace characters ([\S+]). *)
Fixpoint tokens_go (cur : str) (s : str) : list str :=
  match s with
  | [] => if decide (cur = []) then [] else [rev cur]
  | c :: s' =>
      if isspace c
      then (if decide (cur = []) then tokens_go [] s'
            else rev cur :: tokens_go [] s')
      else tokens_go (c :: cur) s'
  end.

Definition tokens (s : str) : list str := tokens_go [] s.

Definition hash : N := 35.
Definition space : N := 32.

(** ** Attribute dictionaries

    [Tag.attrs] is an insertion-ordered dict whose values are strings,
    or lists of strings for the multi-valued attributes ([class]). *)

Inductive attr_value :=
| AttrStr (s : str)
| AttrList (l : list str).

Global Instance attr_value_eq_dec : EqDecision attr_value.
Proof. solve_decision. Defined.

Abbreviation dict := (list (list N * attr_value)) (only parsing).

Fixpoint dict_get (k : str) (d : dict) : option attr_value :=
  match d with
  | [] => None
  | (k', v) :: d' => if decide (k' = k) then Some v else dict_get k d'
  end.

(** [k in d] *)
Definition dict_mem (k : str) (d : dict) : bool :=
  match dict_get k d with Some _ => true | None => false end.

(** [d[k] = v]: an existing key keeps its position, a new key goes last. *)
Fixpoint dict_set (k : str) (v : attr_value) (d : dict) : dict :=
  match d with
  | [] => [(k, v)]
  | (k', v') :: d' =>
      if decide (k' = k) then (k, v) :: d' else (k', v') :: dict_set k v d'
  end.

(** ** Page elements and the store *)

Abbreviation ref := nat (only parsing).

Inductive PageElement :=
| Tag (parent : option ref) (name : str) (attrs : dict) (contents : list ref)
| NavigableString (parent : option ref) (value : str).

Global Instance PageElement_eq_dec : EqDecision PageElement.
Proof. solve_decision. Defined.

(** The store: element [n] lives at index [n].  Index [0] is the
    [BeautifulSoup] object itself, a tag named ["[document]"]. *)
Abbreviation heap := (list PageElement) (only parsing).

Definition root : ref := 0.

Inductive exn :=
| AttributeError | KeyError | ValueError | TypeError | UnboundLocalError.

Inductive result (A : Type) :=
| Ok (a : A)
| Raise (e : exn).
Arguments Ok {A} a.
Arguments Raise {A} e.

Definition bind {A B} (m : result A) (k : A → result B) : result B :=
  match m with
  | Ok a => k a
  | Raise e => Raise e
  end.

Notation "'let*' x ':=' m 'in' k" := (bind m (λ x, k))
  (at level 10, x name, m at level 100, k at level 200, only parsing).

Module bs4.

(** *** Reading fields *)

Definition elem_parent (e : PageElement) : option ref :=
  match e with
  | Tag p _ _ _ | NavigableString p _ => p
  end.

Definition elem_contents (e : PageElement) : list ref :=
  match e with
  | Tag _ _ _ cs => cs
  | NavigableString _ _ => []
  end.

Definition elem_name (e : PageElement) : option str :=
  match e with
  | Tag _ nm _ _ => Some nm
  | NavigableString _ _ => None
  end.

Definition elem_attrs (e : PageElement) : dict :=
  match e with
  | Tag _ _ a _ => a
  | NavigableString _ _ => []
  end.

Definition elem_string (e : PageElement) : option str :=
  match e with
  | Tag _ _ _ _ => None
  | NavigableString _ s => Some s
  end.

Definition parent (h : heap) (n : ref) : option ref :=
  match h !! n with Some e => elem_parent e | None => None end.

Definition contents (h : heap) (n : ref) : list ref :=
  match h !! n with Some e => elem_contents e | None => [] end.

Definition name (h : heap) (n : ref) : option str :=
  match h !! n with Some e => elem_name e | None => None end.

Definition attrs (h : heap) (n : ref) : dict :=
  match h !! n with Some e => elem_attrs e | None => [] end.

(** [isinstance(item, NavigableString)], with the string it holds. *)
Definition string_value (h : heap) (n : ref) : option str :=
  match h !! n with Some e => elem_string e | None => None end.

Definition is_tag (h : heap) (n : ref) : bool :=
  match name h n with Some _ => true | None => false end.

(** *** Writing fields *)

Definition with_parent (p : option ref) (e : PageElement) : PageElement :=
  match e with
  | Tag _ nm a cs => Tag p nm a cs
  | NavigableString _ s => NavigableString p s
  end.

Definition with_contents (cs : list ref) (e : PageElement) : PageElement :=
  match e with
  | Tag p nm a _ => Tag p nm a cs
  | NavigableString p s => NavigableString p s
  end.

Definition with_name (nm : str) (e : PageElement) : PageElement :=
  match e with
  | Tag p _ a cs => Tag p nm a cs
  | NavigableString p s => NavigableString p s
  end.

Definition with_attr (k : str) (v : attr_value) (e : PageElement) : PageElement :=
  match e with
  | Tag p nm a cs => Tag p nm (dict_set k v a) cs
  | NavigableString p s => NavigableString p s
  end.

Definition set_parent (n : ref) (p : option ref) (h : heap) : heap :=
  alter (with_parent p) n h.

Definition set_contents (n : ref) (cs : list ref) (h : heap) : heap :=
  alter (with_contents cs) n h.

(** [tag.name = nm] *)
Definition set_name (n : ref) (nm : str) (h : heap) : heap :=
  alter (with_name nm) n h.

(** [tag[k] = v] *)
Definition setitem (n : ref) (k : str) (v : attr_value) (h : heap) : heap :=
  alter (with_attr k v) n h.

(** [tag[k]]: [KeyError] when the attribute is absent. *)
Definition getitem (h : heap) (n : ref) (k : str) : result attr_value :=
  match dict_get k (attrs h n) with
  | Some v => Ok v
  | None => Raise KeyError
  end.

(** A new element, not yet attached: its reference is the next index. *)
Definition alloc (e : PageElement) (h : heap) : ref * heap :=
  (length h, h ++ [e]).

(** *** Navigating *)

(** [tag.index(element)]: position of the first child that is this
    very object. *)
Fixpoint index_of (n : ref) (cs : list ref) : option nat :=
  match cs with
  | [] => None
  | c :: cs' => if decide (c = n) then Some 0 else S <$> index_of n cs'
  end.

(** [element.parents], nearest first.  The walks up and down the tree
    take fuel; the number of elements in the store is enough. *)
Fixpoint parents_upto (fuel : nat) (h : heap) (n : ref) : list ref :=
  match fuel with
  | 0 => []
  | S fuel' =>
      match parent h n with
      | Some p => p :: parents_upto fuel' h p
      | None => []
      end
  end.

Definition parents (h : heap) (n : ref) : list ref :=
  parents_upto (length h) h n.

(** [tag.descendants]: every element below [n], in document order. *)
Fixpoint descendants_upto (fuel : nat) (h : heap) (n : ref) : list ref :=
  match fuel with
  | 0 => []
  | S fuel' =>
      c ← contents h n; c :: descendants_upto fuel' h c
  end.

Definition descendants (h : heap) (n : ref) : list ref :=
  descendants_upto (length h) h n.

(** How a searched-for string matches an attribute value: a string
    value must equal it; a multi-valued attribute matches when one of
    its values does, or when its values joined by spaces do. *)
Definition value_matches (x : str) (v : attr_value) : bool :=
  match v with
  | AttrStr s => bool_decide (s = x)
  | AttrList l => bool_decide (x ∈ l) || bool_decide (join_with space l = x)
  end.

(** A node without the attribute does not match. *)
Definition attr_matches (h : heap) (k x : str) (n : ref) : bool :=
  match dict_get k (attrs h n) with
  | Some v => value_matches x v
  | None => false
  end.

Definition has_name (h : heap) (nm : str) (n : ref) : bool :=
  bool_decide (name h n = Some nm).

(** [tag.find_parent(nm)] *)
Definition find_parent (h : heap) (n : ref) (nm : str) : option ref :=
  head (filter (λ a, has_name h nm a = true) (parents h n)).

(** [soup.find(id=x)] *)
Definition find_id (h : heap) (x : str) : option ref :=
  head (filter (λ n, is_tag h n && attr_matches h (lit "id") x n = true)
               (descendants h root)).

(** [soup.find(nm)], which is also what [soup.html] abbreviates. *)
Definition find_name (h : heap) (nm : str) : option ref :=
  head (filter (λ n, has_name h nm n = true) (descendants h root)).

(** [soup.find_all(nm, class_=cls)] *)
Definition find_all_class (h : heap) (nm cls : str) : list ref :=
  filter (λ n, has_name h nm n && attr_matches h (lit "class") cls n = true)
         (descendants h root).

(** *** Modifying the tree *)

Definition insert_at {A} (i : nat) (x : A) (l : list A) : list A :=
  take i l ++ x :: drop i l.

(** [element.extract()]: unlink the element from its parent.  The
    parent's [index] raises [ValueError] if the parent does not list
    the element. *)
Definition extract (n : ref) (h : heap) : result heap :=
  match parent h n with
  | None => Ok h
  | Some q =>
      match index_of n (contents h q) with
      | None => Raise ValueError
      | Some i =>
          Ok (set_parent n None (set_contents q (delete i (contents h q)) h))
      end
  end.

Fixpoint extract_each (cs : list ref) (h : heap) : result heap :=
  match cs with
  | [] => Ok h
  | c :: cs' => let* h' := extract c h in extract_each cs' h'
  end.

(** [tag.clear()]: extract every child, over a copy of the contents. *)
Definition clear (n : ref) (h : heap) : result heap :=
  extract_each (contents h n) h.

(** [tag.insert(position, new_child)] *)
Definition insert (q : ref) (position : nat) (c : ref) (h : heap) : result heap :=
  if decide (c = q) then Raise ValueError
  else
    let position := position `min` length (contents h q) in
    let* position :=
      match parent h c with
      | Some q' =>
          if decide (q' = q) then
            match index_of c (contents h q) with
            | Some i => Ok (if decide (i < position) then position - 1 else position)
            | None => Raise ValueError
            end
          else Ok position
      | None => Ok position
      end in
    let* h := extract c h in
    let h := set_parent c (Some q) h in
    Ok (set_contents q (insert_at position c (contents h q)) h).

(** [tag.append(new_child)] *)
Definition append (q c : ref) (h : heap) : result heap :=
  insert q (length (contents h q)) c h.

(** [tag.string = s]: drop the children, then hold one new string. *)
Definition set_string (n : ref) (s : str) (h : heap) : result heap :=
  let* h := clear n h in
  let '(t, h) := alloc (NavigableString None s) h in
  append n t h.

(** [soup.new_tag(nm, **attrs)] *)
Definition new_tag (nm : str) (a : dict) (h : heap) : ref * heap :=
  alloc (Tag None nm a []) h.

(** [self.insert_after(successor)] *)
Definition insert_after (self successor : ref) (h : heap) : result heap :=
  match parent h self with
  | None => Raise ValueError
  | Some q =>
      if decide (successor = self) then Raise ValueError
      else
        let* h := extract successor h in
        match index_of self (contents h q) with
        | None => Raise ValueError
        | Some i => insert q (i + 1) successor h
        end
  end.

(** [self.insert_before(predecessor)] *)
Definition insert_before (self predecessor : ref) (h : heap) : result heap :=
  match parent h self with
  | None => Raise ValueError
  | Some q =>
      if decide (predecessor = self) then Raise ValueError
      else
        let* h := extract predecessor h in
        match index_of self (contents h q) with
        | None => Raise ValueError
        | Some i => insert q i predecessor h
        end
  end.

(** [element.decompose()]: extract the element and destroy it.  The
    destroyed subtree is out of the document and is never read again,
    so the store keeps only the effect on the document, the
    extraction. *)
Definition decompose (n : ref) (h : heap) : result heap := extract n h.

(** *** CSS selection

    The selectors of the engine: a type selector with class
    conditions ([a.footnote-ref], [a]), alone or under the child
    combinator ([span.math-super > a]). *)

Record compound := Compound { sel_name : str; sel_classes : list str }.

Inductive css :=
| Simple (c : compound)
| Child (p c : compound).

Definition class_list (h : heap) (n : ref) : list str :=
  match dict_get (lit "class") (attrs h n) with
  | Some (AttrList l) => l
  | Some (AttrStr s) => tokens s
  | None => []
  end.

Definition matches_compound (h : heap) (c : compound) (n : ref) : bool :=
  has_name h (sel_name c) n
  && forallb (λ cls, bool_decide (cls ∈ class_list h n)) (sel_classes c).

Definition matches (h : heap) (s : css) (n : ref) : bool :=
  match s with
  | Simple c => matches_compound h c n
  | Child p c =>
      matches_compound h c n
      && match parent h n with
         | Some q => matches_compound h p q
         | None => false
         end
  end.

(** [soup.select(s)]: the matching tags below the document root, in
    document order. *)
Definition select (h : heap) (s : css) : list ref :=
  filter (λ n, matches h s n = true) (descendants h root).

End bs4.

Import bs4.

(** ** The engine: [create_popup_footnotes] *)

(** [foot_ref_tags_selectors] *)
Definition a_footnote_ref : css := Simple (Compound (lit "a") [lit "footnote-ref"]).

Definition foot_ref_tags_selectors : list css :=
  [ a_footnote_ref;
    Simple (Compound (lit "a") [lit "footnote"]);
    Simple (Compound (lit "a") [lit "footnote-backref"]);
    a_footnote_ref;
    Child (Compound (lit "span") [lit "math-super"]) (Compound (lit "a") []);
    Simple (Compound (lit "a") [lit "footnote-link"]);
    Child (Compound (lit "sup") [lit "suptext"]) (Compound (lit "a") []) ].

(** The marker that replaces the text of a reference, U+329F. *)
Definition marker : str := [12959%N].

Definition epub_namespace : str := lit "http://www.idpf.org/2007/ops".

(** ['nootref' + str(idx)] *)
Definition nootref (idx : nat) : str := lit "nootref" ++ str_of_nat idx.

(** [enumerate(l, start)] *)
Fixpoint enumerate {A} (l : list A) (start : nat) : list (nat * A) :=
  match l with
  | [] => []
  | x :: l' => (start, x) :: enumerate l' (S start)
  end.

(** The loop's state: the document and the counter [processed_notes]. *)
Record state := State { soup : heap; processed_notes : nat }.

(** What a call hands back: the returned markup and the lines printed.
    The progress bar of lines 75, 108 and 116 is left out. *)
Record outcome := Outcome { returned : str; printed : list str }.

Section Engine.

(** [BeautifulSoup(html_content, 'html.parser')] and [str(soup)] *)
Variable BeautifulSoup : str → heap.
Variable str_soup : heap → str.

(** The module's globals, set from the command line. *)
Variable need_jump : bool.
Variable auto_find_footnote_tags : bool.

(** Lines 64-65: [footrefs += soup.select(selector)] for each rule. *)
Definition select_each (h : heap) (rules : list css) : list ref :=
  fold_left (λ footrefs selector, footrefs ++ select h selector) rules [].

(** Lines 62-68.  The loop variable [selector] of line 64 is local to
    the function, so line 67 reads a local that was never assigned. *)
Definition find_footrefs (h : heap) : result (list ref) :=
  if auto_find_footnote_tags then Ok (select_each h foot_ref_tags_selectors)
  else Raise UnboundLocalError.

(** Line 82: [note_href.split('#')[-1]] *)
Definition fragment (note_href : str) : str :=
  default [] (last (split hash note_href)).

(** Lines 86-89 *)
Definition mark_pair (noteref note_text : ref) (h : heap) : result heap :=
  let h := setitem noteref (lit "epub:type") (AttrStr (lit "noteref")) h in
  let* h := set_string noteref marker h in
  let h := set_name note_text (lit "aside") h in
  Ok (setitem note_text (lit "epub:type") (AttrStr (lit "footnote")) h).

(** Lines 92-100 *)
Definition replace_content (note_text : ref) (h : heap) : result heap :=
  match find_parent h note_text (lit "p") with
  | Some parent_p =>
      let direct_text_nodes := omap (string_value h) (contents h parent_p) in
      let direct_text := strip (join direct_text_nodes) in
      let* h := set_string note_text direct_text h in
      let* h := insert_after parent_p note_text h in
      extract parent_p h
  | None => Ok h
  end.

(** Lines 103-106 *)
Definition add_jump (idx : nat) (noteref note_text : ref) (h : heap) : result heap :=
  if need_jump then
    let* id := getitem h noteref (lit "id") in
    match id with
    | AttrStr id =>
        let '(new_tag, h) :=
          bs4.new_tag (lit "a") [(lit "href", AttrStr (hash :: id))] h in
        let* h := set_string new_tag (lit "[" ++ str_of_nat idx ++ lit "]") h in
        insert_before note_text new_tag h
    | AttrList _ => Raise TypeError
    end
  else Ok h.

(** Lines 80-109: the body of the loop, for one reference. *)
Definition process_noteref (idx : nat) (noteref : ref) (st : state) : result state :=
  let h := soup st in
  let* note_href := getitem h noteref (lit "href") in
  let h := setitem noteref (lit "id") (AttrStr (nootref idx)) h in
  let* note_id :=
    match note_href with
    | AttrStr s => Ok (fragment s)
    | AttrList _ => Raise AttributeError
    end in
  match find_id h note_id with
  | None => Ok (State h (processed_notes st))
  | Some note_text =>
      let* h := mark_pair noteref note_text h in
      let* h := replace_content note_text h in
      let* h := add_jump idx noteref note_text h in
      Ok (State h (S (processed_notes st)))
  end.

(** Line 79: [for idx, noteref in enumerate(footrefs, start=1)] *)
Fixpoint process_all (l : list (nat * ref)) (st : state) : result state :=
  match l with
  | [] => Ok st
  | (idx, noteref) :: l' =>
      let* st := process_noteref idx noteref st in process_all l' st
  end.

Fixpoint decompose_each (l : list ref) (h : heap) : result heap :=
  match l with
  | [] => Ok h
  | note :: l' => let* h := decompose note h in decompose_each l' h
  end.

(** Lines 112-113 *)
Definition remove_notes (h : heap) : result heap :=
  decompose_each (find_all_class h (lit "p") (lit "note")) h.

(** Lines 59-60 *)
Definition add_namespace (h : heap) : result heap :=
  match find_name h (lit "html") with
  | None => Raise AttributeError
  | Some html =>
      if dict_mem (lit "xmlns:epub") (attrs h html) then Ok h
      else Ok (setitem html (lit "xmlns:epub") (AttrStr epub_namespace) h)
  end.

Definition create_popup_footnotes (html_content : str) : result outcome :=
  let h := BeautifulSoup html_content in
  let* h := add_namespace h in
  let* footrefs := find_footrefs h in
  match footrefs with
  | [] =>
      Ok (Outcome html_content [lit "No footnotes found in the document."])
  | _ =>
      let* st := process_all (enumerate footrefs 1) (State h 0) in
      let* h := remove_notes (soup st) in
      Ok (Outcome (str_soup h)
            [ lit "Found " ++ str_of_nat (length footrefs)
                ++ lit " footnotes in the document.";
              lit "Processed " ++ str_of_nat (processed_notes st)
                ++ lit " footnotes." ])
  end.

End Engine.

(** ** Well-formed documents

    The parent pointers and the contents lists describe one forest: a
    node lists exactly the nodes that name it as parent, once each.
    References are handed out in creation order and a node is created
    after the node it is put under, so a child's reference is larger
    than its parent's. *)

Record wf_struct (par : ref → option ref) (con : ref → list ref) : Prop := {
  wf_link : ∀ q c, c ∈ con q ↔ par c = Some q;
  wf_nodup : ∀ q, NoDup (con q);
  wf_order : ∀ q c, c ∈ con q → q < c
}.

Definition wf (h : heap) : Prop := wf_struct (parent h) (contents h).

(** The same check, executable, node by node. *)
Definition wf_at (h : heap) (n : ref) : bool :=
  forallb (λ c, bool_decide (parent h c = Some n) && bool_decide (n < c))
          (contents h n)
  && bool_decide (NoDup (contents h n))
  && match parent h n with
     | Some q => bool_decide (n ∈ contents h q)
     | None => true
     end.

Definition wfb (h : heap) : bool := forallb (wf_at h) (seq 0 (length h)).

(** The stored data of the nodes of [h] is the same in [h']: only the
    tree structure may differ, and [h'] may hold new nodes. *)
Definition same_data (h h' : heap) : Prop :=
  length h ≤ length h' ∧
  ∀ m, m < length h →
    name h' m = name h m ∧ attrs h' m = attrs h m
    ∧ string_value h' m = string_value h m.

(** [h'] is [h] after node [n] left the contents [l1 ++ n :: l2] of
    its parent [q]. *)
Record detached (h h' : heap) (n q : ref) (l1 l2 : list ref) : Prop := {
  det_length : length h' = length h;
  det_parent : ∀ m, parent h' m = if decide (m = n) then None else parent h m;
  det_contents :
    ∀ m, contents h' m = if decide (m = q) then l1 ++ l2 else contents h m;
  det_data : same_data h h'
}.

(** [h'] is [h] after the parentless node [c] went into the contents
    [l1 ++ l2] of [q], between [l1] and [l2]. *)
Record attached (h h' : heap) (c q : ref) (l1 l2 : list ref) : Prop := {
  att_length : length h' = length h;
  att_parent : ∀ m, parent h' m = if decide (m = c) then Some q else parent h m;
  att_contents :
    ∀ m, contents h' m = if decide (m = q) then l1 ++ c :: l2 else contents h m;
  att_data : same_data h h'
}.

(** [h'] is [h] after [n.string = s]: the old children of [n] are
    parentless and [n] holds one new string, the next reference. *)
Record restrung (h h' : heap) (n : ref) (s : str) : Prop := {
  rs_length : length h' = S (length h);
  rs_parent :
    ∀ m, parent h' m =
         if decide (m = length h) then Some n
         else if decide (m ∈ contents h n) then None else parent h m;
  rs_contents :
    ∀ m, contents h' m = if decide (m = n) then [length h] else contents h m;
  rs_string : string_value h' (length h) = Some s;
  rs_data : same_data h h'
}.

(** [c] is in the tree below [n]. *)
Inductive below (h : heap) (n : ref) : ref → Prop :=
| below_child c : c ∈ contents h n → below h n c
| below_step c0 c : c0 ∈ contents h n → below h c0 c → below h n c.

(** How often [n] occurs in a candidate sequence. *)
Definition occurrences (n : ref) (l : list ref) : nat :=
  length (filter (λ x, x = n) l).

(** The lookup of line 83 finds a node for [noteref] at index [idx]. *)
Definition resolves (h : heap) (idx : nat) (noteref : ref) : Prop :=
  ∃ note_href note_text,
    getitem h noteref (lit "href") = Ok (AttrStr note_href)
    ∧ find_id (setitem noteref (lit "id") (AttrStr (nootref idx)) h)
              (fragment note_href) = Some note_text.

(** The nodes of [l] that existed when the store had [N] elements. *)
Definition olds (N : nat) (l : list ref) : list ref := filter (λ n, n < N) l.

(** In [h'] the child [c'] stands where [c] stood in [h]: it is [c],
    or a node from below [c] that has kept none of its children. *)
Definition stands_for (h h' : heap) (c' c : ref) : Prop :=
  c' = c ∨ (below h c c' ∧ olds (length h) (contents h' c') = []).

(** [h'] is [h] with children dropped, new nodes put in, and nodes
    moved up to where an ancestor stood. *)
Definition reshaped (h h' : heap) : Prop :=
  (∀ m c, length h ≤ m → c ∈ contents h' m → length h ≤ c)
  ∧ (∀ m, ∃ ks, ks `sublist_of` contents h m
                ∧ Forall2 (stands_for h h') (olds (length h) (contents h' m)) ks).

(** A note-list paragraph: what line 112 searches for. *)
Definition is_note_paragraph (h : heap) (n : ref) : bool :=
  has_name h (lit "p") n && attr_matches h (lit "class") (lit "note") n.

(** ** Example documents *)

(** A plain serializer for the examples: tags with their attributes in
    dictionary order, multi-valued attributes joined by spaces, strings
    as they are. *)
Definition render_value (v : attr_value) : str :=
  match v with
  | AttrStr s => s
  | AttrList l => join_with space l
  end.

Definition dquote : N := 34.

Definition render_attrs (a : dict) : str :=
  join ((λ kv, lit " " ++ kv.1 ++ lit "=" ++ dquote :: render_value kv.2 ++ [dquote])
          <$> a).

Fixpoint render_upto (fuel : nat) (h : heap) (n : ref) : str :=
  match fuel with
  | 0 => []
  | S fuel' =>
      match h !! n with
      | Some (Tag _ nm a cs) =>
          lit "<" ++ nm ++ render_attrs a ++ lit ">"
          ++ join (render_upto fuel' h <$> cs)
          ++ lit "</" ++ nm ++ lit ">"
      | Some (NavigableString _ s) => s
      | None => []
      end
  end.

Definition render (h : heap) : str :=
  join (render_upto (length h) h <$> contents h root).

Definition document (cs : list ref) : PageElement :=
  Tag None (lit "[document]") [] cs.

(** [<html><body></body></html>] *)
Definition plain_markup : str := lit "<html><body></body></html>".

Definition plain : heap :=
  [ document [1];
    Tag (Some 0) (lit "html") [] [2];
    Tag (Some 1) (lit "body") [] [] ].

(** [<html><body><a class="footnote-ref" href="#Z1">1</a>
    <p>Some <i>inline</i> remark<a id="Z1">def text</a></p></body></html>],
    on one line. *)
Definition popup : heap :=
  [ document [1];
    Tag (Some 0) (lit "html") [] [2];
    Tag (Some 1) (lit "body") [] [3; 5];
    Tag (Some 2) (lit "a")
      [(lit "class", AttrList [lit "footnote-ref"]); (lit "href", AttrStr (lit "#Z1"))]
      [4];
    NavigableString (Some 3) (lit "1");
    Tag (Some 2) (lit "p") [] [6; 7; 9; 10];
    NavigableString (Some 5) (lit "Some ");
    Tag (Some 5) (lit "i") [] [8];
    NavigableString (Some 7) (lit "inline");
    NavigableString (Some 5) (lit " remark");
    Tag (Some 5) (lit "a") [(lit "id", AttrStr (lit "Z1"))] [11];
    NavigableString (Some 10) (lit "def text") ].

(** [<html><body><a class="footnote" href="#missing">1</a></body></html>] *)
Definition dangling : heap :=
  [ document [1];
    Tag (Some 0) (lit "html") [] [2];
    Tag (Some 1) (lit "body") [] [3];
    Tag (Some 2) (lit "a")
      [(lit "class", AttrList [lit "footnote"]); (lit "href", AttrStr (lit "#missing"))]
      [4];
    NavigableString (Some 3) (lit "1") ].

(** Two references whose definitions share one paragraph:
    [<html><body><a class="footnote" href="#Z1">1</a>
    <a class="footnote" href="#Z2">2</a>
    <p>t<span id="Z1">d1</span><span id="Z2">d2</span></p></body></html>] *)
Definition shared_paragraph : heap :=
  [ document [1];
    Tag (Some 0) (lit "html") [] [2];
    Tag (Some 1) (lit "body") [] [3; 5; 7];
    Tag (Some 2) (lit "a")
      [(lit "class", AttrList [lit "footnote"]); (lit "href", AttrStr (lit "#Z1"))]
      [4];
    NavigableString (Some 3) (lit "1");
    Tag (Some 2) (lit "a")
      [(lit "class", AttrList [lit "footnote"]); (lit "href", AttrStr (lit "#Z2"))]
      [6];
    NavigableString (Some 5) (lit "2");
    Tag (Some 2) (lit "p") [] [8; 9; 11];
    NavigableString (Some 7) (lit "t");
    Tag (Some 7) (lit "span") [(lit "id", AttrStr (lit "Z1"))] [10];
    NavigableString (Some 9) (lit "d1");
    Tag (Some 7) (lit "span") [(lit "id", AttrStr (lit "Z2"))] [12];
    NavigableString (Some 11) (lit "d2") ].

(** A note list with one paragraph that is referred to and one that is
    not:
    [<html><body><a class="footnote" href="#n1">1</a>
    <p class="note"><span id="n1">x</span></p>
    <p class="note">leftover</p></body></html>] *)
Definition note_list : heap :=
  [ document [1];
    Tag (Some 0) (lit "html") [] [2];
    Tag (Some 1) (lit "body") [] [3; 5; 8];
    Tag (Some 2) (lit "a")
      [(lit "class", AttrList [lit "footnote"]); (lit "href", AttrStr (lit "#n1"))]
      [4];
    NavigableString (Some 3) (lit "1");
    Tag (Some 2) (lit "p") [(lit "class", AttrList [lit "note"])] [6];
    Tag (Some 5) (lit "span") [(lit "id", AttrStr (lit "n1"))] [7];
    NavigableString (Some 6) (lit "x");
    Tag (Some 2) (lit "p") [(lit "class", AttrList [lit "note"])] [9];
    NavigableString (Some 8) (lit "leftover") ].

(** [note_list] once line 60 has declared the namespace. *)
Definition note_list_ns : heap :=
  setitem 1 (lit "xmlns:epub") (AttrStr epub_namespace) note_list.

(** [<html><body><a class="footnote-ref" href="#Z1">1</a>
    <p>  Some <i>inline</i> remark (newline)<a id="Z1">def text</a></p></body></html>]:
    [popup] with white space around the direct text of the paragraph. *)
Definition padded : heap :=
  [ document [1];
    Tag (Some 0) (lit "html") [] [2];
    Tag (Some 1) (lit "body") [] [3; 5];
    Tag (Some 2) (lit "a")
      [(lit "class", AttrList [lit "footnote-ref"]); (lit "href", AttrStr (lit "#Z1"))]
      [4];
    NavigableString (Some 3) (lit "1");
    Tag (Some 2) (lit "p") [] [6; 7; 9; 10];
    NavigableString (Some 5) (lit "  Some ");
    Tag (Some 5) (lit "i") [] [8];
    NavigableString (Some 7) (lit "inline");
    NavigableString (Some 5) (lit " remark " ++ [10%N]);
    Tag (Some 5) (lit "a") [(lit "id", AttrStr (lit "Z1"))] [11];
    NavigableString (Some 10) (lit "def text") ].

(** A definition whose paragraph lies inside the reference:
    [<html><body><a class="footnote" href="#d"><p>t<span id="d">x</span></p></a>
    </body></html>] *)
Definition nested_paragraph : heap :=
  [ document [1];
    Tag (Some 0) (lit "html") [] [2];
    Tag (Some 1) (lit "body") [] [3];
    Tag (Some 2) (lit "a")
      [(lit "class", AttrList [lit "footnote"]); (lit "href", AttrStr (lit "#d"))]
      [4];
    Tag (Some 3) (lit "p") [] [5; 6];
    NavigableString (Some 4) (lit "t");
    Tag (Some 4) (lit "span") [(lit "id", AttrStr (lit "d"))] [7];
    NavigableString (Some 6) (lit "x") ].

(** A reference whose link names the identifier the engine is about to
    give it: [<html><body><a class="footnote" href="#nootref1">1</a></body></html>] *)
Definition self_reference : heap :=
  [ document [1];
    Tag (Some 0) (lit "html") [] [2];
    Tag (Some 1) (lit "body") [] [3];
    Tag (Some 2) (lit "a")
      [(lit "class", AttrList [lit "footnote"]); (lit "href", AttrStr (lit "#nootref1"))]
      [4];
    NavigableString (Some 3) (lit "1") ].

(** [shared_paragraph] with references of the class [footnote-ref]. *)
Definition shared_refs : heap :=
  [ document [1];
    Tag (Some 0) (lit "html") [] [2];
    Tag (Some 1) (lit "body") [] [3; 5; 7];
    Tag (Some 2) (lit "a")
      [(lit "class", AttrList [lit "footnote-ref"]); (lit "href", AttrStr (lit "#Z1"))]
      [4];
    NavigableString (Some 3) (lit "1");
    Tag (Some 2) (lit "a")
      [(lit "class", AttrList [lit "footnote-ref"]); (lit "href", AttrStr (lit "#Z2"))]
      [6];
    NavigableString (Some 5) (lit "2");
    Tag (Some 2) (lit "p") [] [8; 9; 11];
    NavigableString (Some 7) (lit "t");
    Tag (Some 7) (lit "span") [(lit "id", AttrStr (lit "Z1"))] [10];
    NavigableString (Some 9) (lit "d1");
    Tag (Some 7) (lit "span") [(lit "id", AttrStr (lit "Z2"))] [12];
    NavigableString (Some 11) (lit "d2") ].

(** * Properties *)

(** ** Field updates *)

Section fields.
Context (h : heap).

Lemma lookup_lt_length (n : ref) : is_Some (h !! n) ↔ n < length h.
Proof. apply lookup_lt_is_Some. Qed.

Lemma parent_in_range n q : parent h n = Some q → n < length h.
Proof.
  unfold parent. destruct (h !! n) eqn:E; [|done].
  intros _. apply lookup_lt_Some in E. done.
Qed.

Lemma contents_in_range n c : c ∈ contents h n → n < length h.
Proof.
  unfold contents. destruct (h !! n) eqn:E.
  - intros _. by apply lookup_lt_Some in E.
  - by intros ?%elem_of_nil.
Qed.

Lemma name_in_range n nm : name h n = Some nm → n < length h.
Proof.
  unfold name. destruct (h !! n) eqn:E; [|done].
  intros _. by apply lookup_lt_Some in E.
Qed.

Lemma is_tag_in_range n : is_tag h n = true → n < length h.
Proof.
  unfold is_tag. destruct (name h n) eqn:E; [|done].
  intros _. by eapply name_in_range.
Qed.

Lemma is_tag_lookup n :
  is_tag h n = true → ∃ p nm a cs, h !! n = Some (Tag p nm a cs).
Proof.
  unfold is_tag, name. destruct (h !! n) as [[p nm a cs|]|]; try done.
  intros _. by exists p, nm, a, cs.
Qed.

End fields.

Ltac unfold_fields :=
  unfold parent, contents, name, attrs, string_value, is_tag, name,
    set_parent, set_contents, set_name, setitem in *.

(** One tactic for all "this update does not touch that field" facts. *)
Ltac frame_alter m n :=
  unfold_fields;
  destruct (decide (m = n)) as [->|?];
  [ rewrite list_lookup_alter_eq; match goal with |- context [?h !! n] =>
      destruct (h !! n) as [[]|]; simpl; try done end
  | by rewrite list_lookup_alter_ne ].

Section updates.
Context (h : heap) (n m : ref).

Lemma parent_set_parent_eq p : n < length h → parent (set_parent n p h) n = p.
Proof.
  intros [e He]%lookup_lt_is_Some. unfold_fields.
  rewrite list_lookup_alter_eq, He. by destruct e.
Qed.

Lemma parent_set_parent_ne p : m ≠ n → parent (set_parent n p h) m = parent h m.
Proof. intros. unfold_fields. by rewrite list_lookup_alter_ne. Qed.

Lemma contents_set_parent p : contents (set_parent n p h) m = contents h m.
Proof. frame_alter m n. Qed.

Lemma name_set_parent p : name (set_parent n p h) m = name h m.
Proof. frame_alter m n. Qed.

Lemma attrs_set_parent p : attrs (set_parent n p h) m = attrs h m.
Proof. frame_alter m n. Qed.

Lemma string_set_parent p : string_value (set_parent n p h) m = string_value h m.
Proof. frame_alter m n. Qed.

Lemma contents_set_contents_eq cs :
  is_tag h n = true → contents (set_contents n cs h) n = cs.
Proof.
  intros (p & nm & a & cs0 & He)%is_tag_lookup. unfold_fields.
  by rewrite list_lookup_alter_eq, He.
Qed.

Lemma contents_set_contents_ne cs :
  m ≠ n → contents (set_contents n cs h) m = contents h m.
Proof. intros. unfold_fields. by rewrite list_lookup_alter_ne. Qed.

Lemma parent_set_contents cs : parent (set_contents n cs h) m = parent h m.
Proof. frame_alter m n. Qed.

Lemma name_set_contents cs : name (set_contents n cs h) m = name h m.
Proof. frame_alter m n. Qed.

Lemma attrs_set_contents cs : attrs (set_contents n cs h) m = attrs h m.
Proof. frame_alter m n. Qed.

Lemma string_set_contents cs :
  string_value (set_contents n cs h) m = string_value h m.
Proof. frame_alter m n. Qed.

Lemma name_set_name_eq nm : is_tag h n = true → name (set_name n nm h) n = Some nm.
Proof.
  intros (p & nm0 & a & cs0 & He)%is_tag_lookup. unfold_fields.
  by rewrite list_lookup_alter_eq, He.
Qed.

Lemma name_set_name_ne nm : m ≠ n → name (set_name n nm h) m = name h m.
Proof. intros. unfold_fields. by rewrite list_lookup_alter_ne. Qed.

Lemma parent_set_name nm : parent (set_name n nm h) m = parent h m.
Proof. frame_alter m n. Qed.

Lemma contents_set_name nm : contents (set_name n nm h) m = contents h m.
Proof. frame_alter m n. Qed.

Lemma attrs_set_name nm : attrs (set_name n nm h) m = attrs h m.
Proof. frame_alter m n. Qed.

Lemma string_set_name nm : string_value (set_name n nm h) m = string_value h m.
Proof. frame_alter m n. Qed.

Lemma attrs_setitem_eq k v :
  is_tag h n = true → attrs (setitem n k v h) n = dict_set k v (attrs h n).
Proof.
  intros (p & nm0 & a & cs0 & He)%is_tag_lookup. unfold_fields.
  by rewrite list_lookup_alter_eq, He.
Qed.

Lemma attrs_setitem_ne k v : m ≠ n → attrs (setitem n k v h) m = attrs h m.
Proof. intros. unfold_fields. by rewrite list_lookup_alter_ne. Qed.

Lemma parent_setitem k v : parent (setitem n k v h) m = parent h m.
Proof. frame_alter m n. Qed.

Lemma contents_setitem k v : contents (setitem n k v h) m = contents h m.
Proof. frame_alter m n. Qed.

Lemma name_setitem k v : name (setitem n k v h) m = name h m.
Proof. frame_alter m n. Qed.

Lemma string_setitem k v : string_value (setitem n k v h) m = string_value h m.
Proof. frame_alter m n. Qed.

End updates.

Section alloc.
Context (h : heap) (e : PageElement) (m : ref).

Lemma lookup_alloc_old : m < length h → (alloc e h).2 !! m = h !! m.
Proof. intros. simpl. by rewrite lookup_app_l. Qed.

Lemma lookup_alloc_new : (alloc e h).2 !! length h = Some e.
Proof. simpl. rewrite lookup_app_r by lia. by rewrite Nat.sub_diag. Qed.

Lemma length_alloc : length (alloc e h).2 = S (length h).
Proof. simpl. rewrite length_app. simpl. lia. Qed.

(** A new node without parent and children leaves the structure as
    it was: beyond the store there was no parent and no child. *)
Lemma parent_alloc : elem_parent e = None → parent (alloc e h).2 m = parent h m.
Proof.
  intros He. unfold parent. destruct (decide (m < length h)) as [Hlt|Hge].
  - by rewrite lookup_alloc_old.
  - rewrite (lookup_ge_None_2 h m) by lia.
    destruct (decide (m = length h)) as [->|].
    + by rewrite lookup_alloc_new.
    + rewrite lookup_ge_None_2; [done|]. rewrite length_alloc. lia.
Qed.

Lemma contents_alloc : elem_contents e = [] → contents (alloc e h).2 m = contents h m.
Proof.
  intros He. unfold contents. destruct (decide (m < length h)) as [Hlt|Hge].
  - by rewrite lookup_alloc_old.
  - rewrite (lookup_ge_None_2 h m) by lia.
    destruct (decide (m = length h)) as [->|].
    + by rewrite lookup_alloc_new.
    + rewrite lookup_ge_None_2; [done|]. rewrite length_alloc. lia.
Qed.

Lemma same_data_alloc : same_data h (alloc e h).2.
Proof.
  split; [rewrite length_alloc; lia|]. intros k Hk.
  unfold name, attrs, string_value, alloc. cbn [snd].
  by rewrite lookup_app_l.
Qed.

End alloc.

Lemma same_data_refl h : same_data h h.
Proof. by split. Qed.

Lemma same_data_trans h1 h2 h3 : same_data h1 h2 → same_data h2 h3 → same_data h1 h3.
Proof.
  intros [L1 D1] [L2 D2]. split; [lia|]. intros m Hm.
  destruct (D1 m Hm) as (E1 & E2 & E3).
  destruct (D2 m) as (F1 & F2 & F3); [lia|]. by rewrite F1, F2, F3.
Qed.

Lemma same_data_pointwise h h' :
  length h' = length h →
  (∀ m, name h' m = name h m) → (∀ m, attrs h' m = attrs h m) →
  (∀ m, string_value h' m = string_value h m) → same_data h h'.
Proof. intros L ???. split; [lia|]. by intros m _. Qed.

Lemma same_data_is_tag h h' m : same_data h h' → m < length h → is_tag h' m = is_tag h m.
Proof. intros [_ D] Hm. unfold is_tag. by destruct (D m Hm) as (-> & _). Qed.

(** ** The forest invariant *)

Section structure.
Context (par : ref → option ref) (con : ref → list ref).

Lemma wf_struct_ext par' con' :
  (∀ m, par' m = par m) → (∀ m, con' m = con m) →
  wf_struct par con → wf_struct par' con'.
Proof.
  intros Hp Hc [L N O]. split.
  - intros q c. rewrite Hp, Hc. apply L.
  - intros q. rewrite Hc. apply N.
  - intros q c. rewrite Hc. apply O.
Qed.

Lemma wf_detach n q l1 l2 :
  wf_struct par con → par n = Some q → con q = l1 ++ n :: l2 →
  wf_struct (λ m, if decide (m = n) then None else par m)
            (λ m, if decide (m = q) then l1 ++ l2 else con m).
Proof.
  intros [L N O] Hn Hq.
  assert (Hnd : NoDup (l1 ++ n :: l2)) by (rewrite <- Hq; apply N).
  apply NoDup_app in Hnd as (N1 & N12 & N2).
  apply NoDup_cons in N2 as [Hn2 N2].
  assert (Hn1 : n ∉ l1) by (intros Hin; apply (N12 n Hin); left).
  split.
  - intros q' c. destruct (decide (q' = q)) as [->|Hq'].
    + destruct (decide (c = n)) as [->|Hc].
      * split; [|done]. rewrite elem_of_app. tauto.
      * rewrite <- L, Hq, !elem_of_app, elem_of_cons. tauto.
    + destruct (decide (c = n)) as [->|Hc]; [|apply L].
      split; [|done]. intros Hin%L. congruence.
  - intros q'. destruct (decide (q' = q)); [|apply N].
    apply NoDup_app. split_and!; [done| |done].
    intros x Hx1 Hx2. apply (N12 x Hx1). by right.
  - intros q' c. destruct (decide (q' = q)) as [->|]; [|apply O].
    intros Hin. apply O. rewrite Hq.
    rewrite elem_of_app in Hin. rewrite elem_of_app, elem_of_cons. tauto.
Qed.

Lemma wf_attach c q l1 l2 :
  wf_struct par con → par c = None → q < c → con q = l1 ++ l2 →
  wf_struct (λ m, if decide (m = c) then Some q else par m)
            (λ m, if decide (m = q) then l1 ++ c :: l2 else con m).
Proof.
  intros [L N O] Hc Hlt Hq.
  assert (Hnd : NoDup (l1 ++ l2)) by (rewrite <- Hq; apply N).
  assert (Hno : ∀ q', c ∉ con q').
  { intros q' Hin%L. congruence. }
  assert (Hc12 : c ∉ l1 ++ l2) by (rewrite <- Hq; apply Hno).
  rewrite elem_of_app in Hc12.
  apply NoDup_app in Hnd as (N1 & N12 & N2).
  split.
  - intros q' x. destruct (decide (q' = q)) as [->|Hq'].
    + destruct (decide (x = c)) as [->|Hx].
      * split; [done|]. intros _. rewrite elem_of_app, elem_of_cons. tauto.
      * rewrite <- L, Hq, !elem_of_app, elem_of_cons. tauto.
    + destruct (decide (x = c)) as [->|Hx]; [|apply L].
      split; [|congruence]. intros Hin. by destruct (Hno q').
  - intros q'. destruct (decide (q' = q)); [|apply N].
    apply NoDup_app. split_and!; [done| |].
    + intros x Hx1 [->|Hx2]%elem_of_cons; [tauto|]. by apply (N12 x).
    + apply NoDup_cons. split; [tauto|done].
  - intros q' x. destruct (decide (q' = q)) as [->|]; [|apply O].
    rewrite elem_of_app, elem_of_cons. intros [?|[->|?]]; [|done|].
    + apply O. rewrite Hq, elem_of_app. tauto.
    + apply O. rewrite Hq, elem_of_app. tauto.
Qed.

End structure.

Lemma wf_detached h h' n q l1 l2 :
  wf h → parent h n = Some q → contents h q = l1 ++ n :: l2 →
  detached h h' n q l1 l2 → wf h'.
Proof.
  intros Hwf Hn Hq [_ P C _].
  eapply wf_struct_ext; [apply P|apply C|]. by apply wf_detach.
Qed.

Lemma wf_attached h h' c q l1 l2 :
  wf h → parent h c = None → q < c → contents h q = l1 ++ l2 →
  attached h h' c q l1 l2 → wf h'.
Proof.
  intros Hwf Hn Hlt Hq [_ P C _].
  eapply wf_struct_ext; [apply P|apply C|]. by apply wf_attach.
Qed.

Lemma wf_same_structure h h' :
  (∀ m, parent h' m = parent h m) → (∀ m, contents h' m = contents h m) →
  wf h → wf h'.
Proof. intros. by eapply wf_struct_ext. Qed.

Lemma wf_child h q c : wf h → c ∈ contents h q → parent h c = Some q.
Proof. intros [L _ _] ?. by apply L. Qed.

Lemma wf_listed h q c : wf h → parent h c = Some q → c ∈ contents h q.
Proof. intros [L _ _] ?. by apply L. Qed.

Lemma wf_split h q n :
  wf h → parent h n = Some q →
  ∃ l1 l2, contents h q = l1 ++ n :: l2 ∧ (n ∉ l1) ∧ (n ∉ l2).
Proof.
  intros Hwf Hn. pose proof (wf_listed _ _ _ Hwf Hn) as Hin.
  apply list_elem_of_split in Hin as (l1 & l2 & Hq). exists l1, l2.
  split; [done|]. pose proof (wf_nodup _ _ Hwf q) as Hnd. rewrite Hq in Hnd.
  apply NoDup_app in Hnd as (_ & N12 & [N2 _]%NoDup_cons).
  split; [|done]. intros Hin. apply (N12 n Hin). by left.
Qed.

Lemma wf_parent_lt h q c : wf h → parent h c = Some q → q < c.
Proof. intros Hwf Hc. eapply wf_order; [done|]. by apply wf_listed. Qed.

(** ** Extraction *)

Lemma index_of_split n l1 l2 : n ∉ l1 → index_of n (l1 ++ n :: l2) = Some (length l1).
Proof.
  induction l1 as [|c l1 IH]; simpl; intros Hn.
  - by rewrite decide_True.
  - apply not_elem_of_cons in Hn as [Hc Hn].
    rewrite decide_False by done. by rewrite IH.
Qed.

Lemma index_of_None n cs : index_of n cs = None ↔ n ∉ cs.
Proof.
  induction cs as [|c cs IH]; simpl.
  - split; [intros _; apply not_elem_of_nil|done].
  - rewrite not_elem_of_cons. destruct (decide (c = n)) as [->|Hc].
    + split; [done|]. by intros [? _].
    + destruct (index_of n cs); simpl.
      * split; [done|]. intros [_ Hn]. by apply IH in Hn.
      * split; [|done]. intros _. split; [done|]. by apply IH.
Qed.

Lemma contents_is_tag h q c : c ∈ contents h q → is_tag h q = true.
Proof.
  unfold contents, is_tag, name. destruct (h !! q) as [[]|]; simpl; try done.
  all: by intros ?%elem_of_nil.
Qed.

Lemma extract_parentless h n : parent h n = None → extract n h = Ok h.
Proof. unfold extract. by intros ->. Qed.

Lemma extract_detached h n q l1 l2 :
  parent h n = Some q → contents h q = l1 ++ n :: l2 → n ∉ l1 →
  ∃ h', extract n h = Ok h' ∧ detached h h' n q l1 l2.
Proof.
  intros Hn Hq Hn1. unfold extract. rewrite Hn, Hq, index_of_split by done.
  rewrite delete_middle. eexists. split; [done|].
  assert (Htag : is_tag h q = true).
  { apply (contents_is_tag h q n). rewrite Hq. set_solver. }
  split.
  - unfold set_parent, set_contents. by rewrite !length_alter.
  - intros m. destruct (decide (m = n)) as [->|Hm].
    + rewrite parent_set_parent_eq; [done|].
      unfold set_contents. rewrite length_alter. by eapply parent_in_range.
    + rewrite parent_set_parent_ne by done. apply parent_set_contents.
  - intros m. rewrite contents_set_parent. destruct (decide (m = q)) as [->|Hm].
    + by rewrite contents_set_contents_eq.
    + by rewrite contents_set_contents_ne.
  - apply same_data_pointwise.
    + unfold set_parent, set_contents. by rewrite !length_alter.
    + intros m. by rewrite name_set_parent, name_set_contents.
    + intros m. by rewrite attrs_set_parent, attrs_set_contents.
    + intros m. by rewrite string_set_parent, string_set_contents.
Qed.

Lemma extract_wf h n q :
  wf h → parent h n = Some q →
  ∃ l1 l2 h', contents h q = l1 ++ n :: l2 ∧ extract n h = Ok h'
              ∧ detached h h' n q l1 l2 ∧ wf h'.
Proof.
  intros Hwf Hn. destruct (wf_split h q n Hwf Hn) as (l1 & l2 & Hq & Hn1 & _).
  destruct (extract_detached h n q l1 l2 Hn Hq Hn1) as (h' & He & Hd).
  exists l1, l2, h'. split_and!; try done. by eapply wf_detached.
Qed.

(** Extraction never fails on a well-formed document. *)
Lemma extract_total h n :
  wf h → ∃ h', extract n h = Ok h' ∧ wf h' ∧ length h' = length h
               ∧ same_data h h'
               ∧ (∀ m, parent h' m = if decide (m = n) then None else parent h m)
               ∧ (∀ m, contents h' m ⊆ contents h m)
               ∧ (∀ m, n ∉ contents h' m).
Proof.
  intros Hwf. destruct (parent h n) as [q|] eqn:Hn.
  - destruct (extract_wf h n q Hwf Hn) as (l1 & l2 & h' & Hq & He & Hd & Hwf').
    exists h'. split_and!.
    + done.
    + done.
    + apply Hd.
    + apply Hd.
    + apply Hd.
    + intros m. rewrite (det_contents _ _ _ _ _ _ Hd).
      destruct (decide (m = q)) as [->|]; [|done]. rewrite Hq.
      intros x. rewrite !elem_of_app, elem_of_cons. tauto.
    + intros m Hin. apply (wf_child _ _ _ Hwf') in Hin.
      rewrite (det_parent _ _ _ _ _ _ Hd), decide_True in Hin; done.
  - exists h. rewrite extract_parentless by done. split_and!.
    + done.
    + done.
    + done.
    + apply same_data_refl.
    + intros m. destruct (decide (m = n)) as [->|]; done.
    + done.
    + intros m Hin. apply (wf_child _ _ _ Hwf) in Hin. congruence.
Qed.

(** [tag.clear()] on a well-formed document: the children lose their
    parent, the tag its contents, nothing else changes. *)
Lemma extract_each_children cs : ∀ h n,
  wf h → contents h n = cs →
  ∃ h', extract_each cs h = Ok h' ∧ wf h' ∧ length h' = length h
        ∧ same_data h h'
        ∧ (∀ m, parent h' m = if decide (m ∈ cs) then None else parent h m)
        ∧ (∀ m, contents h' m = if decide (m = n) then [] else contents h m).
Proof.
  induction cs as [|c cs IH]; intros h n Hwf Hcs; cbn [extract_each].
  - exists h. split_and!.
    + done.
    + done.
    + done.
    + apply same_data_refl.
    + intros m. case_decide as Hm; [by apply elem_of_nil in Hm|done].
    + intros m. destruct (decide (m = n)) as [->|]; done.
  - assert (Hc : parent h c = Some n).
    { apply wf_child; [done|]. rewrite Hcs. set_solver. }
    destruct (extract_detached h c n [] cs Hc Hcs) as (h1 & -> & Hd);
      [apply not_elem_of_nil|].
    assert (Hwf1 : wf h1) by apply (wf_detached h h1 c n [] cs Hwf Hc Hcs Hd).
    destruct (IH h1 n Hwf1) as (h' & He & Hwf' & Hlen & Hdata & Hp & Hc').
    { by rewrite (det_contents _ _ _ _ _ _ Hd), decide_True. }
    exists h'. simpl. split_and!.
    + done.
    + done.
    + rewrite Hlen. apply Hd.
    + eapply same_data_trans; [apply Hd|done].
    + intros m. rewrite Hp, (det_parent _ _ _ _ _ _ Hd).
      destruct (decide (m = c)) as [->|Hm].
      * rewrite (decide_True (P := c ∈ c :: cs)) by (by left).
        by destruct (decide (c ∈ cs)).
      * destruct (decide (m ∈ cs)) as [Hin|Hin].
        -- by rewrite decide_True by (by right).
        -- rewrite decide_False; [done|]. by intros [?|?]%elem_of_cons.
    + intros m. rewrite Hc', (det_contents _ _ _ _ _ _ Hd).
      repeat case_decide; done.
Qed.

Lemma clear_wf h n :
  wf h →
  ∃ h', clear n h = Ok h' ∧ wf h' ∧ length h' = length h ∧ same_data h h'
        ∧ (∀ m, parent h' m = if decide (m ∈ contents h n) then None else parent h m)
        ∧ (∀ m, contents h' m = if decide (m = n) then [] else contents h m).
Proof. intros Hwf. by apply extract_each_children. Qed.

(** ** Insertion *)

Lemma insert_attached h q c position :
  c ≠ q → parent h c = None → is_tag h q = true → c < length h →
  let i := position `min` length (contents h q) in
  ∃ h', insert q position c h = Ok h'
        ∧ attached h h' c q (take i (contents h q)) (drop i (contents h q)).
Proof.
  intros Hcq Hc Hq Hlt i. unfold insert. rewrite decide_False by done.
  rewrite Hc. cbn [bind]. rewrite extract_parentless by done. cbn [bind].
  eexists. split; [done|]. rewrite contents_set_parent. fold i. split.
  - unfold set_parent, set_contents. by rewrite !length_alter.
  - intros m. rewrite parent_set_contents. destruct (decide (m = c)) as [->|Hm].
    + by rewrite parent_set_parent_eq.
    + by rewrite parent_set_parent_ne.
  - intros m. destruct (decide (m = q)) as [->|Hm].
    + rewrite contents_set_contents_eq; [done|].
      unfold is_tag. rewrite name_set_parent. apply Hq.
    + rewrite contents_set_contents_ne by done. apply contents_set_parent.
  - apply same_data_pointwise.
    + unfold set_parent, set_contents. by rewrite !length_alter.
    + intros m. by rewrite name_set_contents, name_set_parent.
    + intros m. by rewrite attrs_set_contents, attrs_set_parent.
    + intros m. by rewrite string_set_contents, string_set_parent.
Qed.

(** [n.string = s] on a well-formed document. *)
Lemma set_string_wf h n s :
  wf h → is_tag h n = true →
  ∃ h', set_string n s h = Ok h' ∧ restrung h h' n s ∧ wf h'.
Proof.
  intros Hwf Htag. pose proof (is_tag_in_range h n Htag) as Hn.
  destruct (clear_wf h n Hwf) as (h1 & Hcl & Hwf1 & Hlen1 & Hd1 & Hp1 & Hc1).
  unfold set_string. rewrite Hcl. cbn [bind].
  set (e := NavigableString None s).
  destruct (alloc e h1) as [t h2] eqn:Ha.
  assert (Ht : t = length h) by (unfold alloc in Ha; congruence).
  assert (Hh2 : h2 = (alloc e h1).2) by (by rewrite Ha).
  assert (Hp2 : ∀ m, parent h2 m = parent h1 m).
  { intros m. rewrite Hh2. by apply parent_alloc. }
  assert (Hc2 : ∀ m, contents h2 m = contents h1 m).
  { intros m. rewrite Hh2. by apply contents_alloc. }
  assert (Hlen2 : length h2 = S (length h)).
  { by rewrite Hh2, length_alloc, Hlen1. }
  assert (Hd2 : same_data h1 h2) by (rewrite Hh2; apply same_data_alloc).
  assert (Hwf2 : wf h2) by (by apply (wf_same_structure h1)).
  assert (Hn2 : contents h2 n = []).
  { by rewrite Hc2, Hc1, decide_True. }
  assert (Htag2 : is_tag h2 n = true).
  { rewrite (same_data_is_tag h h2); [done| |lia].
    by eapply same_data_trans. }
  assert (Hpt : parent h2 t = None).
  { rewrite Hp2. unfold parent. rewrite lookup_ge_None_2; [done|lia]. }
  unfold append. rewrite Hn2.
  destruct (insert_attached h2 n t 0) as (h3 & Hins & Hatt); try done; try lia.
  rewrite Hn2 in Hatt. cbn in Hatt. simpl. rewrite Hins.
  exists h3. split; [done|]. split.
  - split.
    + by rewrite (att_length _ _ _ _ _ _ Hatt).
    + intros m. rewrite (att_parent _ _ _ _ _ _ Hatt), Hp2, Hp1, <- Ht. done.
    + intros m. rewrite (att_contents _ _ _ _ _ _ Hatt), Hc2, Hc1, <- Ht.
      destruct (decide (m = n)); done.
    + destruct (att_data _ _ _ _ _ _ Hatt) as [_ D].
      destruct (D (length h)) as (_ & _ & ->); [lia|].
      unfold string_value. by rewrite Hh2, <- Hlen1, lookup_alloc_new.
    + eapply same_data_trans; [apply Hd1|].
      eapply same_data_trans; [apply Hd2|apply Hatt].
  - eapply (wf_attached h2 h3 t n [] []); try done. lia.
Qed.

Lemma insert_after_wf h self successor q r l1 l2 :
  wf h → parent h self = Some q → contents h q = l1 ++ self :: l2 →
  parent h successor = Some r → r ≠ q → q < successor →
  ∃ h' k1 k2,
    insert_after self successor h = Ok h' ∧ wf h' ∧ length h' = length h
    ∧ same_data h h'
    ∧ contents h r = k1 ++ successor :: k2
    ∧ (∀ m, parent h' m = if decide (m = successor) then Some q else parent h m)
    ∧ (∀ m, contents h' m =
            if decide (m = q) then l1 ++ self :: successor :: l2
            else if decide (m = r) then k1 ++ k2 else contents h m).
Proof.
  intros Hwf Hself Hq Hsucc Hrq Hlt.
  assert (Hne : successor ≠ self) by (intros ->; congruence).
  destruct (extract_wf h successor r Hwf Hsucc)
    as (k1 & k2 & h1 & Hr & Hex & Hd & Hwf1).
  unfold insert_after. rewrite Hself, decide_False, Hex by done. cbn [bind].
  assert (Hq1 : contents h1 q = l1 ++ self :: l2).
  { by rewrite (det_contents _ _ _ _ _ _ Hd), decide_False. }
  assert (Hself1 : self ∉ l1).
  { pose proof (wf_nodup _ _ Hwf q) as Hnd. rewrite Hq in Hnd.
    apply NoDup_app in Hnd as (_ & N12 & _). intros Hin.
    apply (N12 self Hin). by left. }
  rewrite Hq1, index_of_split by done.
  assert (Hps : parent h1 successor = None).
  { by rewrite (det_parent _ _ _ _ _ _ Hd), decide_True. }
  destruct (insert_attached h1 q successor (length l1 + 1)) as (h' & Hins & Hatt).
  { lia. }
  { done. }
  { apply (contents_is_tag h1 q self). rewrite Hq1. set_solver. }
  { rewrite (det_length _ _ _ _ _ _ Hd). by eapply parent_in_range. }
  rewrite Hq1 in Hatt.
  replace ((length l1 + 1) `min` length (l1 ++ self :: l2)) with (length (l1 ++ [self]))
    in Hatt by (rewrite !length_app; simpl; lia).
  replace (l1 ++ self :: l2) with ((l1 ++ [self]) ++ l2) in Hatt
    by (by rewrite <- app_assoc).
  rewrite take_app_length, drop_app_length in Hatt.
  exists h', k1, k2. split_and!.
  - done.
  - eapply (wf_attached h1 h' successor q (l1 ++ [self]) l2); try done.
    by rewrite <- app_assoc.
  - by rewrite (att_length _ _ _ _ _ _ Hatt), (det_length _ _ _ _ _ _ Hd).
  - eapply same_data_trans; [apply Hd|apply Hatt].
  - done.
  - intros m. rewrite (att_parent _ _ _ _ _ _ Hatt), (det_parent _ _ _ _ _ _ Hd).
    destruct (decide (m = successor)); done.
  - intros m. rewrite (att_contents _ _ _ _ _ _ Hatt), (det_contents _ _ _ _ _ _ Hd).
    destruct (decide (m = q)); [by rewrite <- app_assoc|done].
Qed.

Lemma insert_before_wf h self new q l1 l2 :
  wf h → parent h self = Some q → contents h q = l1 ++ self :: l2 →
  parent h new = None → new ≠ self → q < new → new < length h →
  ∃ h', insert_before self new h = Ok h' ∧ wf h'
        ∧ attached h h' new q l1 (self :: l2).
Proof.
  intros Hwf Hself Hq Hnew Hne Hlt Hin.
  assert (Hself1 : self ∉ l1).
  { pose proof (wf_nodup _ _ Hwf q) as Hnd. rewrite Hq in Hnd.
    apply NoDup_app in Hnd as (_ & N12 & _). intros Hin'.
    apply (N12 self Hin'). by left. }
  unfold insert_before. rewrite Hself, decide_False by done.
  rewrite extract_parentless by done. cbn [bind].
  rewrite Hq, index_of_split by done.
  destruct (insert_attached h q new (length l1)) as (h' & Hins & Hatt).
  { lia. }
  { done. }
  { apply (contents_is_tag h q self). rewrite Hq. set_solver. }
  { done. }
  rewrite Hq in Hatt.
  replace (length l1 `min` length (l1 ++ self :: l2)) with (length l1)
    in Hatt by (rewrite !length_app; simpl; lia).
  rewrite take_app_length, drop_app_length in Hatt.
  exists h'. split_and!; [done| |done].
  by eapply (wf_attached h h' new q l1 (self :: l2)).
Qed.

(** ** Ancestors *)

Lemma parents_upto_lt h fuel : ∀ n m, wf h → m ∈ parents_upto fuel h n → m < n.
Proof.
  induction fuel as [|fuel IH]; intros n m Hwf; simpl.
  - by intros ?%elem_of_nil.
  - destruct (parent h n) as [r|] eqn:Hr; [|by intros ?%elem_of_nil].
    pose proof (wf_parent_lt h r n Hwf Hr).
    intros [->|Hin]%elem_of_cons; [done|]. specialize (IH r m Hwf Hin). lia.
Qed.

Lemma parents_upto_le h fuel n r m :
  wf h → parent h n = Some r → m ∈ parents_upto fuel h n → m ≤ r.
Proof.
  intros Hwf Hr. destruct fuel as [|fuel]; simpl.
  - by intros ?%elem_of_nil.
  - rewrite Hr. intros [->|Hin]%elem_of_cons; [done|].
    pose proof (parents_upto_lt h fuel r m Hwf Hin). lia.
Qed.

Lemma parents_upto_parent h fuel n m :
  m ∈ parents_upto fuel h n → ∃ r, parent h n = Some r.
Proof.
  destruct fuel as [|fuel]; simpl; [by intros ?%elem_of_nil|].
  destruct (parent h n) as [r|]; [by exists r|by intros ?%elem_of_nil].
Qed.

Lemma find_parent_Some h d nm p :
  find_parent h d nm = Some p → p ∈ parents h d ∧ name h p = Some nm.
Proof.
  unfold find_parent. intros Hh%head_Some_elem_of.
  apply list_elem_of_filter in Hh as [Hnm Hin]. split; [done|].
  unfold has_name in Hnm. by apply bool_decide_eq_true in Hnm.
Qed.

(** ** Lines 92-100: the content of the definition *)

Lemma replace_content_spec h d :
  wf h → is_tag h d = true →
  match find_parent h d (lit "p") with
  | None => replace_content d h = Ok h
  | Some p =>
      match parent h p with
      | None => replace_content d h = Raise ValueError
      | Some q =>
          ∃ h' l1 l2,
            replace_content d h = Ok h' ∧ wf h' ∧ length h' = S (length h)
            ∧ same_data h h'
            ∧ contents h q = l1 ++ p :: l2
            ∧ contents h' q = l1 ++ d :: l2
            ∧ contents h' d = [length h]
            ∧ string_value h' (length h)
              = Some (strip (join (omap (string_value h) (contents h p))))
            ∧ parent h' d = Some q
            ∧ parent h' p = None
            ∧ (∀ m, p ∉ contents h' m)
            ∧ (∀ m, m ≠ d → m ≠ q → d ∉ contents h m →
                    contents h' m = contents h m)
            ∧ (∀ m, m ≠ d → m ≠ q → contents h' m `sublist_of` contents h m)
            ∧ p ∈ parents h d
      end
  end.
Proof.
  intros Hwf Htag. unfold replace_content.
  destruct (find_parent h d (lit "p")) as [p|] eqn:Hfp; [|done].
  apply find_parent_Some in Hfp as [Hin Hname].
  pose proof (parents_upto_lt h _ d p Hwf Hin) as Hpd.
  destruct (parents_upto_parent h _ d p Hin) as [r Hr].
  pose proof (parents_upto_le h _ d r p Hwf Hr Hin) as Hpr.
  pose proof (wf_parent_lt h r d Hwf Hr) as Hrd.
  pose proof (is_tag_in_range h d Htag) as Hd.
  set (s := strip (join (omap (string_value h) (contents h p)))).
  destruct (set_string_wf h d s Hwf Htag) as (h1 & Hss & Hrs & Hwf1).
  rewrite Hss. cbn [bind].
  assert (Hpc : p ∉ contents h d).
  { intros Hc. pose proof (wf_order _ _ Hwf d p Hc). lia. }
  assert (Hp1 : parent h1 p = parent h p).
  { rewrite (rs_parent _ _ _ _ Hrs), decide_False by lia.
    by rewrite decide_False. }
  destruct (parent h p) as [q|] eqn:Hq.
  2:{ unfold insert_after. by rewrite Hp1. }
  pose proof (wf_parent_lt h q p Hwf Hq) as Hqp.
  destruct (wf_split h q p Hwf Hq) as (l1 & l2 & Hcq & Hl1 & Hl2).
  assert (Hcq1 : contents h1 q = l1 ++ p :: l2).
  { by rewrite (rs_contents _ _ _ _ Hrs), decide_False by lia. }
  assert (Hd1 : parent h1 d = Some r).
  { rewrite (rs_parent _ _ _ _ Hrs), decide_False by lia.
    rewrite decide_False; [done|].
    intros Hc. pose proof (wf_order _ _ Hwf d d Hc). lia. }
  destruct (insert_after_wf h1 p d q r l1 l2)
    as (h2 & k1 & k2 & Hia & Hwf2 & Hlen2 & Hdata2 & Hk & Hp2 & Hc2);
    try done; try lia.
  rewrite Hia. cbn [bind].
  assert (Hpp2 : parent h2 p = Some q).
  { by rewrite Hp2, decide_False, Hp1 by lia. }
  assert (Hcq2 : contents h2 q = l1 ++ p :: d :: l2).
  { by rewrite Hc2, decide_True. }
  destruct (extract_detached h2 p q l1 (d :: l2) Hpp2 Hcq2 Hl1)
    as (h3 & Hex & Hdet).
  assert (Hwf3 : wf h3) by apply (wf_detached _ _ _ _ _ _ Hwf2 Hpp2 Hcq2 Hdet).
  exists h3, l1, l2. split_and!.
  - done.
  - done.
  - by rewrite (det_length _ _ _ _ _ _ Hdet), Hlen2, (rs_length _ _ _ _ Hrs).
  - eapply same_data_trans; [apply Hrs|].
    eapply same_data_trans; [apply Hdata2|apply Hdet].
  - done.
  - by rewrite (det_contents _ _ _ _ _ _ Hdet), decide_True.
  - rewrite (det_contents _ _ _ _ _ _ Hdet), decide_False by lia.
    rewrite Hc2, decide_False, decide_False by lia.
    by rewrite (rs_contents _ _ _ _ Hrs), decide_True.
  - destruct (det_data _ _ _ _ _ _ Hdet) as [_ D3].
    destruct (D3 (length h)) as (_ & _ & ->).
    { rewrite Hlen2, (rs_length _ _ _ _ Hrs). lia. }
    destruct Hdata2 as [_ D2].
    destruct (D2 (length h)) as (_ & _ & ->).
    { rewrite (rs_length _ _ _ _ Hrs). lia. }
    apply Hrs.
  - rewrite (det_parent _ _ _ _ _ _ Hdet), decide_False by lia.
    by rewrite Hp2, decide_True.
  - by rewrite (det_parent _ _ _ _ _ _ Hdet), decide_True.
  - intros m Hm. apply (wf_child _ _ _ Hwf3) in Hm.
    rewrite (det_parent _ _ _ _ _ _ Hdet), decide_True in Hm; done.
  - intros m Hmd Hmq Hdm.
    rewrite (det_contents _ _ _ _ _ _ Hdet), decide_False by done.
    rewrite Hc2, decide_False by done.
    assert (m ≠ r).
    { intros ->. apply Hdm. by apply wf_listed. }
    rewrite decide_False by done.
    by rewrite (rs_contents _ _ _ _ Hrs), decide_False.
  - intros m Hmd Hmq.
    rewrite (det_contents _ _ _ _ _ _ Hdet), decide_False by done.
    rewrite Hc2, decide_False by done.
    assert (Hm1 : contents h1 m = contents h m).
    { by rewrite (rs_contents _ _ _ _ Hrs), decide_False. }
    destruct (decide (m = r)) as [->|Hmr]; [|by rewrite Hm1].
    rewrite <- Hm1, Hk. apply sublist_app; [done|]. by apply sublist_cons.
  - done.
Qed.

Lemma tag_fields h n nm :
  name h n = Some nm → h !! n = Some (Tag (parent h n) nm (attrs h n) (contents h n)).
Proof.
  unfold name, parent, attrs, contents.
  destruct (h !! n) as [[]|]; simpl; congruence.
Qed.

Lemma string_fields h n s :
  string_value h n = Some s → h !! n = Some (NavigableString (parent h n) s).
Proof.
  unfold string_value, parent. destruct (h !! n) as [[]|]; simpl; congruence.
Qed.

(** ** Lines 103-106: the link back to the reference *)

Lemma add_jump_off idx noteref d h : add_jump false idx noteref d h = Ok h.
Proof. done. Qed.

Lemma add_jump_spec h idx noteref d i :
  wf h → is_tag h d = true →
  dict_get (lit "id") (attrs h noteref) = Some (AttrStr i) →
  match parent h d with
  | None => add_jump true idx noteref d h = Raise ValueError
  | Some q =>
      ∃ h' l1 l2,
        add_jump true idx noteref d h = Ok h' ∧ wf h'
        ∧ length h' = S (S (length h)) ∧ same_data h h'
        ∧ contents h q = l1 ++ d :: l2
        ∧ contents h' q = l1 ++ length h :: d :: l2
        ∧ h' !! length h
          = Some (Tag (Some q) (lit "a") [(lit "href", AttrStr (hash :: i))]
                      [S (length h)])
        ∧ h' !! S (length h)
          = Some (NavigableString (Some (length h))
                    (lit "[" ++ str_of_nat idx ++ lit "]"))
        ∧ (∀ m, m ≠ q → m < length h → contents h' m = contents h m)
        ∧ (∀ m, m < length h → parent h' m = parent h m)
  end.
Proof.
  intros Hwf Htag Hid. pose proof (is_tag_in_range h d Htag) as Hd.
  unfold add_jump, getitem. rewrite Hid. cbn [bind].
  set (e := Tag None (lit "a") [(lit "href", AttrStr (hash :: i))] []).
  set (s := lit "[" ++ str_of_nat idx ++ lit "]").
  unfold new_tag. fold e.
  destruct (alloc e h) as [new h1] eqn:Ha.
  assert (Hnew : new = length h) by (unfold alloc in Ha; congruence).
  assert (Hh1 : h1 = (alloc e h).2) by (by rewrite Ha).
  assert (Hp1 : ∀ m, parent h1 m = parent h m).
  { intros m. rewrite Hh1. by apply parent_alloc. }
  assert (Hc1 : ∀ m, contents h1 m = contents h m).
  { intros m. rewrite Hh1. by apply contents_alloc. }
  assert (Hlen1 : length h1 = S (length h)) by (by rewrite Hh1, length_alloc).
  assert (Hd1 : same_data h h1) by (rewrite Hh1; apply same_data_alloc).
  assert (Hwf1 : wf h1) by (by apply (wf_same_structure h)).
  assert (He1 : h1 !! new = Some e).
  { rewrite Hh1, Hnew. apply lookup_alloc_new. }
  assert (Htag1 : is_tag h1 new = true).
  { unfold is_tag, name. by rewrite He1. }
  assert (Hout : h !! new = None) by (apply lookup_ge_None_2; lia).
  assert (Hcn : contents h new = []) by (unfold contents; by rewrite Hout).
  assert (Hpn : parent h new = None) by (unfold parent; by rewrite Hout).
  destruct (set_string_wf h1 new s Hwf1 Htag1) as (h2 & Hss & Hrs & Hwf2).
  rewrite Hss. cbn [bind].
  assert (Hp2 : ∀ m, m ≤ length h → parent h2 m = parent h m).
  { intros m Hm. rewrite (rs_parent _ _ _ _ Hrs), decide_False by lia.
    rewrite Hc1, Hcn, decide_False by apply not_elem_of_nil. apply Hp1. }
  assert (Hc2 : ∀ m, m ≠ new → contents h2 m = contents h m).
  { intros m Hm. by rewrite (rs_contents _ _ _ _ Hrs), decide_False, Hc1. }
  assert (Hd2 : same_data h1 h2) by apply Hrs.
  destruct (parent h d) as [q|] eqn:Hq.
  2:{ unfold insert_before. by rewrite Hp2, Hq by lia. }
  pose proof (parent_in_range h d q Hq).
  pose proof (wf_parent_lt h q d Hwf Hq) as Hqd.
  destruct (wf_split h q d Hwf Hq) as (l1 & l2 & Hcq & Hl1 & Hl2).
  destruct (insert_before_wf h2 d new q l1 l2) as (h3 & Hib & Hwf3 & Hatt);
    try done; try lia.
  { by rewrite Hp2, Hq by lia. }
  { by rewrite Hc2, Hcq by lia. }
  { by rewrite Hp2, Hpn by lia. }
  { rewrite (rs_length _ _ _ _ Hrs). lia. }
  assert (Hd3 : same_data h1 h3).
  { eapply same_data_trans; [apply Hd2|apply Hatt]. }
  exists h3, l1, l2. split_and!.
  - done.
  - done.
  - by rewrite (att_length _ _ _ _ _ _ Hatt), (rs_length _ _ _ _ Hrs), Hlen1.
  - by eapply same_data_trans.
  - done.
  - by rewrite (att_contents _ _ _ _ _ _ Hatt), decide_True, Hnew.
  - rewrite <- Hnew. destruct Hd3 as [_ D]. destruct (D new) as (Hn & Ha3 & _); [lia|].
    assert (Hnm : name h3 new = Some (lit "a")).
    { rewrite Hn. unfold name. by rewrite He1. }
    rewrite (tag_fields h3 new _ Hnm). f_equal.
    rewrite Ha3, (att_parent _ _ _ _ _ _ Hatt), decide_True by done.
    rewrite (att_contents _ _ _ _ _ _ Hatt), decide_False by lia.
    rewrite (rs_contents _ _ _ _ Hrs), decide_True by done.
    unfold attrs. by rewrite He1, Hlen1, Hnew.
  - destruct (att_data _ _ _ _ _ _ Hatt) as [_ D].
    destruct (D (S (length h))) as (_ & _ & Hs3).
    { rewrite (rs_length _ _ _ _ Hrs). lia. }
    assert (Hs : string_value h3 (S (length h)) = Some s).
    { rewrite Hs3, <- Hlen1. apply Hrs. }
    rewrite (string_fields h3 _ _ Hs). f_equal.
    rewrite (att_parent _ _ _ _ _ _ Hatt), decide_False by lia.
    rewrite (rs_parent _ _ _ _ Hrs), decide_True by lia. by rewrite Hnew.
  - intros m Hmq Hm.
    rewrite (att_contents _ _ _ _ _ _ Hatt), decide_False by done.
    apply Hc2. lia.
  - intros m Hm.
    rewrite (att_parent _ _ _ _ _ _ Hatt), decide_False by lia.
    apply Hp2. lia.
Qed.

Lemma add_jump_ok jump h idx noteref d h' :
  wf h → is_tag h d = true → add_jump jump idx noteref d h = Ok h' →
  wf h' ∧ same_data h h'
  ∧ (∀ m, m < length h → d ∉ contents h m → contents h' m = contents h m)
  ∧ (∀ m, m < length h → parent h' m = parent h m).
Proof.
  intros Hwf Htag. destruct jump.
  2:{ rewrite add_jump_off. intros [= <-]. split_and!; try done;
      apply same_data_refl. }
  destruct (dict_get (lit "id") (attrs h noteref)) as [[i|l]|] eqn:Hid.
  - pose proof (add_jump_spec h idx noteref d i Hwf Htag Hid) as Hs.
    destruct (parent h d) as [q|] eqn:Hq; [|by rewrite Hs].
    destruct Hs as (h3 & l1 & l2 & -> & Hwf3 & _ & Hd3 & Hcq & _ & _ & _ & Hc & Hp).
    intros [= <-]. split_and!; try done.
    intros m Hm Hdm. apply Hc; [|done]. intros ->. apply Hdm.
    rewrite Hcq. set_solver.
  - unfold add_jump, getitem. by rewrite Hid.
  - unfold add_jump, getitem. by rewrite Hid.
Qed.

Lemma replace_content_ok h d h' :
  wf h → is_tag h d = true → replace_content d h = Ok h' →
  wf h' ∧ same_data h h'
  ∧ (∀ m, m ≠ d → d ∉ contents h m →
          (∀ c, c ∈ contents h m → name h c ≠ Some (lit "p")) →
          contents h' m = contents h m).
Proof.
  intros Hwf Htag. pose proof (replace_content_spec h d Hwf Htag) as Hs.
  destruct (find_parent h d (lit "p")) as [p|] eqn:Hfp.
  - apply find_parent_Some in Hfp as [_ Hname].
    destruct (parent h p) as [q|] eqn:Hq; [|by rewrite Hs].
    destruct Hs as (h3 & l1 & l2 & -> & Hwf3 & _ & Hd3 & Hcq & _ & _ & _ & _ & _ & _ & Hc & _).
    intros [= <-]. split_and!; try done.
    intros m Hmd Hdm Hnop. apply Hc; try done.
    intros ->. apply (Hnop p); [|done]. rewrite Hcq. set_solver.
  - rewrite Hs. intros [= <-]. split_and!; try done; apply same_data_refl.
Qed.

(** ** Lines 86-89: marking the reference and the definition *)

Lemma mark_pair_spec h noteref d :
  wf h → is_tag h noteref = true → is_tag h d = true →
  ∃ h',
    mark_pair noteref d h = Ok h' ∧ wf h' ∧ length h' = S (length h)
    ∧ (∀ m, parent h' m =
            if decide (m = length h) then Some noteref
            else if decide (m ∈ contents h noteref) then None else parent h m)
    ∧ (∀ m, contents h' m =
            if decide (m = noteref) then [length h] else contents h m)
    ∧ string_value h' (length h) = Some marker
    ∧ (∀ m, m < length h → string_value h' m = string_value h m)
    ∧ (∀ m, m < length h →
            name h' m = if decide (m = d) then Some (lit "aside") else name h m)
    ∧ (∀ m, m < length h →
            attrs h' m =
            let a := if decide (m = noteref)
                     then dict_set (lit "epub:type") (AttrStr (lit "noteref")) (attrs h m)
                     else attrs h m in
            if decide (m = d)
            then dict_set (lit "epub:type") (AttrStr (lit "footnote")) a else a).
Proof.
  intros Hwf Hr Hd. unfold mark_pair.
  set (h1 := setitem noteref (lit "epub:type") (AttrStr (lit "noteref")) h).
  assert (Hlen1 : length h1 = length h) by apply length_alter.
  assert (Hwf1 : wf h1).
  { apply (wf_same_structure h); [| |done]; intros m; unfold h1.
    - apply parent_setitem.
    - apply contents_setitem. }
  assert (Hr1 : is_tag h1 noteref = true).
  { unfold is_tag, h1. rewrite name_setitem. apply Hr. }
  destruct (set_string_wf h1 noteref marker Hwf1 Hr1) as (h2 & -> & Hrs & Hwf2).
  cbn [bind]. destruct (rs_data _ _ _ _ Hrs) as [_ D2].
  set (h3 := set_name d (lit "aside") h2).
  set (h4 := setitem d (lit "epub:type") (AttrStr (lit "footnote")) h3).
  pose proof (is_tag_in_range h d Hd) as Hdl.
  assert (Hd2 : is_tag h2 d = true).
  { unfold is_tag. destruct (D2 d) as (-> & _); [lia|].
    unfold h1. rewrite name_setitem. apply Hd. }
  assert (Hd3 : is_tag h3 d = true).
  { unfold is_tag, h3. by rewrite name_set_name_eq. }
  exists h4. split_and!.
  - done.
  - apply (wf_same_structure h2); [|by (intros; unfold h4, h3;
      rewrite contents_setitem, contents_set_name)|done].
    intros. unfold h4, h3. by rewrite parent_setitem, parent_set_name.
  - unfold h4, h3, setitem, set_name. rewrite !length_alter.
    by rewrite (rs_length _ _ _ _ Hrs), Hlen1.
  - intros m. unfold h4, h3. rewrite parent_setitem, parent_set_name.
    rewrite (rs_parent _ _ _ _ Hrs), Hlen1. unfold h1.
    by rewrite contents_setitem, parent_setitem.
  - intros m. unfold h4, h3. rewrite contents_setitem, contents_set_name.
    rewrite (rs_contents _ _ _ _ Hrs), Hlen1. unfold h1.
    by rewrite contents_setitem.
  - unfold h4, h3. rewrite string_setitem, string_set_name, <- Hlen1. apply Hrs.
  - intros m Hm. unfold h4, h3. rewrite string_setitem, string_set_name.
    destruct (D2 m) as (_ & _ & ->); [lia|]. unfold h1. apply string_setitem.
  - intros m Hm. unfold h4. rewrite name_setitem. unfold h3.
    destruct (decide (m = d)) as [->|Hmd].
    + by rewrite name_set_name_eq.
    + rewrite name_set_name_ne by done.
      destruct (D2 m) as (-> & _); [lia|]. unfold h1. apply name_setitem.
  - intros m Hm. cbn zeta.
    assert (Ha3 : attrs h3 m =
                  if decide (m = noteref)
                  then dict_set (lit "epub:type") (AttrStr (lit "noteref")) (attrs h m)
                  else attrs h m).
    { unfold h3. rewrite attrs_set_name.
      destruct (D2 m) as (_ & -> & _); [lia|]. unfold h1.
      destruct (decide (m = noteref)) as [->|Hmr].
      - by rewrite attrs_setitem_eq.
      - by rewrite attrs_setitem_ne. }
    unfold h4. destruct (decide (m = d)) as [->|Hmd].
    + by rewrite attrs_setitem_eq, Ha3.
    + by rewrite attrs_setitem_ne, Ha3.
Qed.

(** ** Dictionaries *)

Lemma dict_get_set_eq k v d : dict_get k (dict_set k v d) = Some v.
Proof.
  induction d as [|[k' v'] d IH]; simpl.
  - by rewrite decide_True.
  - destruct (decide (k' = k)) as [->|Hk]; simpl.
    + by rewrite decide_True.
    + by rewrite decide_False.
Qed.

Lemma dict_get_set_ne k k' v d : k' ≠ k → dict_get k' (dict_set k v d) = dict_get k' d.
Proof.
  intros Hne. induction d as [|[k0 v0] d IH]; simpl.
  - by rewrite decide_False.
  - destruct (decide (k0 = k)) as [->|Hk]; simpl.
    + by rewrite !decide_False.
    + destruct (decide (k0 = k')); done.
Qed.

Lemma id_not_epub_type : lit "id" ≠ lit "epub:type".
Proof. intros H. vm_compute in H. discriminate. Qed.

Lemma epub_type_not_id : lit "epub:type" ≠ lit "id".
Proof. intros H. vm_compute in H. discriminate. Qed.

(** ** The loop body *)

Lemma getitem_is_tag h n k v : getitem h n k = Ok v → is_tag h n = true.
Proof.
  unfold getitem, attrs, is_tag, name.
  destruct (h !! n) as [[]|]; simpl; done.
Qed.

Lemma getitem_Ok h n k v : getitem h n k = Ok v ↔ dict_get k (attrs h n) = Some v.
Proof.
  unfold getitem. destruct (dict_get k (attrs h n)); split; congruence.
Qed.

Lemma find_id_Some h x d :
  find_id h x = Some d →
  is_tag h d = true ∧ attr_matches h (lit "id") x d = true
  ∧ d ∈ descendants h root.
Proof.
  unfold find_id. intros Hh%head_Some_elem_of.
  apply list_elem_of_filter in Hh as [[H1 H2]%andb_true_iff Hin]. done.
Qed.

Section body.
Context (need_jump : bool) (idx : nat) (noteref : ref) (st : state).

Let h1 := setitem noteref (lit "id") (AttrStr (nootref idx)) (soup st).

(** What a successful iteration went through. *)
Lemma process_noteref_inv st' :
  process_noteref need_jump idx noteref st = Ok st' →
  ∃ s, getitem (soup st) noteref (lit "href") = Ok (AttrStr s)
    ∧ ((find_id h1 (fragment s) = None
        ∧ st' = State h1 (processed_notes st))
       ∨ (∃ d h2 h3,
            find_id h1 (fragment s) = Some d
            ∧ mark_pair noteref d h1 = Ok h2
            ∧ replace_content d h2 = Ok h3
            ∧ add_jump need_jump idx noteref d h3 = Ok (soup st')
            ∧ processed_notes st' = S (processed_notes st))).
Proof.
  unfold process_noteref. fold h1.
  destruct (getitem (soup st) noteref (lit "href")) as [[s|l]|e]; try done.
  cbn [bind]. intros H. exists s. split; [done|].
  destruct (find_id h1 (fragment s)) as [d|].
  - right. destruct (mark_pair noteref d h1) as [h2|] eqn:E2; [|done].
    cbn [bind] in H. destruct (replace_content d h2) as [h3|] eqn:E3; [|done].
    cbn [bind] in H.
    destruct (add_jump need_jump idx noteref d h3) as [h4|] eqn:E4; [|done].
    cbn [bind] in H. injection H as <-. by exists d, h2, h3.
  - left. by injection H as <-.
Qed.

Lemma process_noteref_unresolved s :
  getitem (soup st) noteref (lit "href") = Ok (AttrStr s) →
  find_id h1 (fragment s) = None →
  process_noteref need_jump idx noteref st = Ok (State h1 (processed_notes st)).
Proof.
  intros Hh Hf. unfold process_noteref. rewrite Hh. cbn [bind]. fold h1.
  by rewrite Hf.
Qed.

Lemma process_noteref_resolved s d :
  getitem (soup st) noteref (lit "href") = Ok (AttrStr s) →
  find_id h1 (fragment s) = Some d →
  process_noteref need_jump idx noteref st =
    let* h := mark_pair noteref d h1 in
    let* h := replace_content d h in
    let* h := add_jump need_jump idx noteref d h in
    Ok (State h (S (processed_notes st))).
Proof.
  intros Hh Hf. unfold process_noteref. rewrite Hh. cbn [bind]. fold h1.
  by rewrite Hf.
Qed.

Lemma h1_wf : wf (soup st) → wf h1.
Proof.
  apply wf_same_structure; intros m; unfold h1.
  - apply parent_setitem.
  - apply contents_setitem.
Qed.

Lemma h1_length : length h1 = length (soup st).
Proof. apply length_alter. Qed.

(** One iteration keeps the document well formed, keeps every node,
    and touches the identifier of the reference only. *)
Lemma process_noteref_wf st' :
  wf (soup st) → process_noteref need_jump idx noteref st = Ok st' →
  wf (soup st') ∧ length (soup st) ≤ length (soup st')
  ∧ dict_get (lit "id") (attrs (soup st') noteref) = Some (AttrStr (nootref idx))
  ∧ (∀ m, m < length (soup st) → m ≠ noteref →
          dict_get (lit "id") (attrs (soup st') m)
          = dict_get (lit "id") (attrs (soup st) m)).
Proof.
  intros Hwf Hp. pose proof (h1_wf Hwf) as Hwf1.
  apply process_noteref_inv in Hp as (s & Hhref & Hcase).
  pose proof (getitem_is_tag _ _ _ _ Hhref) as Hr.
  assert (Hr1 : is_tag h1 noteref = true).
  { unfold is_tag, h1. rewrite name_setitem. apply Hr. }
  assert (Hid1 : dict_get (lit "id") (attrs h1 noteref) = Some (AttrStr (nootref idx))).
  { unfold h1. rewrite attrs_setitem_eq by done. apply dict_get_set_eq. }
  destruct Hcase as [[Hf ->]|(d & h2 & h3 & Hf & Hm & Hrc & Haj & Hn)]; simpl.
  - split_and!; [done|by rewrite h1_length|done|].
    intros m _ Hm. unfold h1. by rewrite attrs_setitem_ne.
  - apply find_id_Some in Hf as (Hd & _ & _).
    destruct (mark_pair_spec h1 noteref d Hwf1 Hr1 Hd)
      as (h2' & Hm' & Hwf2 & Hlen2 & _ & _ & _ & _ & Hname2 & Hattrs2).
    rewrite Hm in Hm'. injection Hm' as <-.
    assert (Hd2 : is_tag h2 d = true).
    { unfold is_tag. rewrite Hname2, decide_True; [done..|].
      by apply is_tag_in_range. }
    destruct (replace_content_ok h2 d h3 Hwf2 Hd2 Hrc) as (Hwf3 & Hdata3 & _).
    assert (Hd3 : is_tag h3 d = true).
    { rewrite (same_data_is_tag h2 h3); [done..|]. by apply is_tag_in_range. }
    destruct (add_jump_ok _ _ _ _ _ _ Hwf3 Hd3 Haj) as (Hwf4 & Hdata4 & _).
    pose proof (same_data_trans _ _ _ Hdata3 Hdata4) as [Hle D].
    rewrite <- h1_length.
    assert (Hattrs : ∀ m, m < length h1 →
              dict_get (lit "id") (attrs (soup st') m)
              = dict_get (lit "id") (attrs h1 m)).
    { intros m Hm1. destruct (D m) as (_ & -> & _); [lia|].
      rewrite Hattrs2 by done. cbn zeta.
      repeat case_decide;
        by rewrite ?(dict_get_set_ne _ _ _ _ id_not_epub_type). }
    split_and!; [done|lia| |].
    + rewrite Hattrs; [done|]. by apply is_tag_in_range.
    + intros m Hm1 Hne. rewrite Hattrs by done.
      unfold h1. by rewrite attrs_setitem_ne.
Qed.

End body.

(** ** The executable check implies the invariant *)

Lemma wfb_wf h : wfb h = true → wf h.
Proof.
  unfold wfb. rewrite forallb_forall. intros Hall.
  assert (Hat : ∀ n, n < length h → wf_at h n = true).
  { intros n Hn. apply Hall, in_seq. lia. }
  assert (Hch : ∀ q c, c ∈ contents h q → parent h c = Some q ∧ q < c).
  { intros q c Hin. pose proof (contents_in_range h q c Hin) as Hq.
    specialize (Hat q Hq). unfold wf_at in Hat.
    apply andb_true_iff in Hat as [[Hf _]%andb_true_iff _].
    rewrite forallb_forall in Hf. apply list_elem_of_In, Hf in Hin.
    apply andb_true_iff in Hin as [H1 H2].
    apply bool_decide_eq_true in H1, H2. done. }
  split.
  - intros q c. split; [intros Hin; by destruct (Hch q c Hin)|].
    intros Hc. pose proof (parent_in_range h c q Hc) as Hlt.
    specialize (Hat c Hlt). unfold wf_at in Hat.
    apply andb_true_iff in Hat as [_ Hp]. rewrite Hc in Hp.
    by apply bool_decide_eq_true in Hp.
  - intros q. destruct (decide (q < length h)) as [Hq|Hq].
    + specialize (Hat q Hq). unfold wf_at in Hat.
      apply andb_true_iff in Hat as [[_ Hn]%andb_true_iff _].
      by apply bool_decide_eq_true in Hn.
    + unfold contents. rewrite lookup_ge_None_2 by lia. constructor.
  - intros q c Hin. by destruct (Hch q c Hin).
Qed.

(** ** Strings *)

Lemma split_nonempty sep s : split sep s ≠ [].
Proof.
  destruct s as [|c s]; simpl; [done|].
  destruct (decide (c = sep)); [done|]. by destruct (split sep s).
Qed.

Lemma split_nosep sep s : sep ∉ s → split sep s = [s].
Proof.
  induction s as [|c s IH]; simpl; [done|].
  intros [Hc Hs]%not_elem_of_cons. rewrite decide_False by done.
  by rewrite IH.
Qed.

Lemma split_single sep s w : split sep s = [w] → s = w ∧ sep ∉ s.
Proof.
  revert w. induction s as [|c s IH]; intros w; simpl.
  - intros [= <-]. split; [done|apply not_elem_of_nil].
  - destruct (decide (c = sep)) as [->|Hc].
    + intros [= _ H]. by destruct (split_nonempty sep s).
    + destruct (split sep s) as [|w0 ws] eqn:E; [by destruct (split_nonempty sep s)|].
      intros [= <- ->]. destruct (IH w0 eq_refl) as [-> Hs].
      split; [done|by apply not_elem_of_cons].
Qed.

(** The last field of a split holds no separator, and the string is
    either that field alone or something, a separator, and the field. *)
Lemma split_last sep s :
  ∃ w, last (split sep s) = Some w ∧ (sep ∉ w)
       ∧ ((s = w ∧ sep ∉ s) ∨ ∃ pre, s = pre ++ sep :: w).
Proof.
  induction s as [|c s (w & Hl & Hw & Hs)]; simpl.
  - exists []. split_and!; [done|apply not_elem_of_nil|].
    left. split; [done|apply not_elem_of_nil].
  - pose proof (split_nonempty sep s) as Hne.
    destruct (decide (c = sep)) as [->|Hc].
    + exists w. destruct (split sep s) as [|w0 ws] eqn:E; [done|].
      split_and!; [by rewrite last_cons, Hl|done|].
      right. destruct Hs as [[-> _]|[pre ->]].
      * by exists [].
      * by exists (sep :: pre).
    + destruct (split sep s) as [|w0 ws] eqn:E; [done|].
      destruct ws as [|w1 ws].
      * simpl in Hl. injection Hl as ->.
        destruct (split_single sep s w E) as [-> Hn]. exists (c :: w).
        split_and!; [done|by apply not_elem_of_cons|].
        left. split; [done|by apply not_elem_of_cons].
      * exists w. split_and!; [done|done|].
        destruct Hs as [[-> Hn]|[pre ->]].
        -- by rewrite (split_nosep sep w Hn) in E.
        -- right. by exists (c :: pre).
Qed.

Lemma fragment_spec note_href :
  (hash ∉ fragment note_href)
  ∧ ((note_href = fragment note_href ∧ hash ∉ note_href)
     ∨ ∃ pre, note_href = pre ++ hash :: fragment note_href).
Proof.
  unfold fragment. destruct (split_last hash note_href) as (w & -> & Hw & Hs).
  done.
Qed.

Lemma lit_inj s1 s2 : lit s1 = lit s2 → s1 = s2.
Proof.
  unfold lit. intros H.
  assert (Inj (=) (=) N_of_ascii).
  { intros a b Hab. by rewrite <- (ascii_N_embedding a), <- (ascii_N_embedding b), Hab. }
  apply (inj (fmap N_of_ascii)) in H.
  by rewrite <- (string_of_list_ascii_of_string s1),
             <- (string_of_list_ascii_of_string s2), H.
Qed.

Lemma nootref_inj i j : nootref i = nootref j → i = j.
Proof.
  unfold nootref, str_of_nat. intros H%app_inv_head%lit_inj.
  by apply (inj pretty).
Qed.

(** ** Trimming *)

Lemma lstrip_spec s :
  ∃ pre, s = pre ++ lstrip s
         ∧ Forall (λ c, isspace c = true) pre
         ∧ ∀ c, head (lstrip s) = Some c → isspace c = false.
Proof.
  induction s as [|a s (pre & Hs & Hpre & Hhd)]; simpl.
  - exists []. by split_and!.
  - destruct (isspace a) eqn:Ha.
    + exists (a :: pre). split_and!; [by rewrite Hs at 1|by constructor|done].
    + exists []. split_and!; [done|constructor|]. by intros c [= <-].
Qed.

(** [strip] removes white space from both ends and nothing else: the
    string is a run of white space, the stripped string, and a run of
    white space, and the stripped string neither begins nor ends with
    white space. *)
Lemma strip_spec s :
  ∃ pre suf,
    s = pre ++ strip s ++ suf
    ∧ Forall (λ c, isspace c = true) pre
    ∧ Forall (λ c, isspace c = true) suf
    ∧ (∀ c, head (strip s) = Some c → isspace c = false)
    ∧ (∀ c, last (strip s) = Some c → isspace c = false).
Proof.
  unfold strip, rstrip.
  destruct (lstrip_spec s) as (pre & Hs & Hpre & Hhd).
  destruct (lstrip_spec (rev (lstrip s))) as (erp & Hr & Herp & Hlast).
  set (t := lstrip (rev (lstrip s))) in *.
  assert (Ht : lstrip s = rev t ++ rev erp).
  { by rewrite <- rev_app_distr, <- Hr, rev_involutive. }
  exists pre, (rev erp). split_and!.
  - by rewrite <- Ht.
  - done.
  - by apply Forall_rev.
  - intros c Hc. apply Hhd. rewrite Ht.
    destruct (rev t); [done|]. by simpl in *.
  - intros c Hc. apply Hlast. destruct t as [|a t]; [done|].
    simpl in Hc. by rewrite last_snoc in Hc.
Qed.

(** ** Lists *)

Lemma head_filter_Some {A} (P : A → Prop) `{∀ x, Decision (P x)} l x :
  head (filter P l) = Some x ↔
  ∃ l1 l2, l = l1 ++ x :: l2 ∧ P x ∧ Forall (λ y, ¬ P y) l1.
Proof.
  induction l as [|a l IH].
  - split; [done|]. intros (l1 & l2 & Hl & _). by destruct l1.
  - rewrite filter_cons. destruct (decide (P a)) as [Ha|Ha]; simpl.
    + split.
      * intros [= ->]. by exists [], l.
      * intros (l1 & l2 & Hl & Hx & Hall). destruct l1 as [|b l1].
        -- by injection Hl as -> _.
        -- injection Hl as -> _. by apply Forall_cons in Hall as [? _].
    + rewrite IH. split.
      * intros (l1 & l2 & -> & Hx & Hall). exists (a :: l1), l2.
        split_and!; [done|done|by constructor].
      * intros (l1 & l2 & Hl & Hx & Hall). destruct l1 as [|b l1].
        -- by injection Hl as -> _.
        -- injection Hl as -> ->. apply Forall_cons in Hall as [_ Hall].
           by exists l1, l2.
Qed.

Lemma head_filter_None {A} (P : A → Prop) `{∀ x, Decision (P x)} l :
  head (filter P l) = None ↔ Forall (λ y, ¬ P y) l.
Proof.
  rewrite head_None. induction l as [|a l IH]; [by split|].
  rewrite filter_cons, Forall_cons. destruct (decide (P a)); [|by rewrite IH; tauto].
  split; [done|tauto].
Qed.

Lemma select_each_flat h rules :
  select_each h rules = concat (select h <$> rules).
Proof.
  unfold select_each.
  assert (∀ acc, fold_left (λ footrefs selector, footrefs ++ select h selector) rules acc
                 = acc ++ concat (select h <$> rules)) as Hgen.
  { induction rules as [|r rules IH]; intros acc; simpl.
    - by rewrite app_nil_r.
    - by rewrite IH, app_assoc. }
  apply Hgen.
Qed.

Lemma enumerate_fst {A} (l : list A) start : (enumerate l start).*1 = seq start (length l).
Proof. revert start. induction l as [|x l IH]; intros start; simpl; [done|]. by rewrite IH. Qed.

Lemma enumerate_snd {A} (l : list A) start : (enumerate l start).*2 = l.
Proof. revert start. induction l as [|x l IH]; intros start; simpl; [done|]. by rewrite IH. Qed.

Lemma enumerate_app {A} (l1 l2 : list A) start :
  enumerate (l1 ++ l2) start = enumerate l1 start ++ enumerate l2 (start + length l1).
Proof.
  revert start. induction l1 as [|x l1 IH]; intros start; simpl.
  - by rewrite Nat.add_0_r.
  - rewrite IH. do 3 f_equal. lia.
Qed.

Lemma process_all_app jump l1 l2 st :
  process_all jump (l1 ++ l2) st =
    let* st := process_all jump l1 st in process_all jump l2 st.
Proof.
  revert st. induction l1 as [|[idx r] l1 IH]; intros st; simpl; [done|].
  destruct (process_noteref jump idx r st); simpl; [apply IH|done].
Qed.

(** ** The loop *)

Lemma process_all_wf jump l : ∀ st st',
  wf (soup st) → process_all jump l st = Ok st' →
  wf (soup st') ∧ length (soup st) ≤ length (soup st').
Proof.
  induction l as [|[idx r] l IH]; intros st st' Hwf; simpl.
  - by intros [= <-].
  - destruct (process_noteref jump idx r st) as [st1|] eqn:E; [|done].
    cbn [bind]. intros Hrest.
    destruct (process_noteref_wf _ _ _ _ _ Hwf E) as (Hwf1 & Hlen1 & _).
    destruct (IH st1 st' Hwf1 Hrest) as [Hwf' Hlen']. split; [done|lia].
Qed.

(** Iterations for other references leave a node's identifier alone. *)
Lemma process_all_id_frame jump l n : ∀ st st',
  wf (soup st) → process_all jump l st = Ok st' →
  n < length (soup st) → n ∉ l.*2 →
  dict_get (lit "id") (attrs (soup st') n) = dict_get (lit "id") (attrs (soup st) n).
Proof.
  induction l as [|[idx r] l IH]; intros st st' Hwf; simpl.
  - by intros [= <-].
  - destruct (process_noteref jump idx r st) as [st1|] eqn:E; [|done].
    cbn [bind]. intros Hrest Hn [Hnr Hnl]%not_elem_of_cons.
    destruct (process_noteref_wf _ _ _ _ _ Hwf E) as (Hwf1 & Hlen1 & _ & Hframe).
    rewrite (IH st1 st' Hwf1 Hrest); [|lia|done]. by apply Hframe.
Qed.

(** After the loop a reference carries the identifier of its last
    occurrence in the candidate sequence. *)
Lemma process_all_last_id jump l n : ∀ start st st' k,
  wf (soup st) → process_all jump (enumerate l start) st = Ok st' →
  l !! k = Some n → n ∉ drop (S k) l →
  dict_get (lit "id") (attrs (soup st') n) = Some (AttrStr (nootref (start + k))).
Proof.
  induction l as [|r l IH]; intros start st st' k Hwf; simpl; [done|].
  destruct (process_noteref jump start r st) as [st1|] eqn:E; [|done].
  cbn [bind]. intros Hrest Hk Hlast.
  destruct (process_noteref_wf _ _ _ _ _ Hwf E) as (Hwf1 & Hlen1 & Hid & _).
  destruct k as [|k]; simpl in *.
  - injection Hk as ->. rewrite Nat.add_0_r, <- Hid.
    apply (process_all_id_frame jump (enumerate l (S start)) n st1 st'); try done.
    + apply process_noteref_inv in E as (s & Hh & _).
      apply getitem_is_tag, is_tag_in_range in Hh. lia.
    + by rewrite enumerate_snd.
  - replace (start + S k) with (S start + k) by lia. by eapply IH.
Qed.

(** ** The sweep of lines 112-113 *)

Lemma descendants_upto_listed h fuel : ∀ n m,
  m ∈ descendants_upto fuel h n → ∃ q, m ∈ contents h q.
Proof.
  induction fuel as [|fuel IH]; intros n m; simpl.
  - by intros ?%elem_of_nil.
  - intros (c & Hm & Hc)%list_elem_of_bind.
    apply elem_of_cons in Hm as [->|Hm]; [by exists n|]. by eapply IH.
Qed.

Lemma descendants_upto_subset h h' fuel :
  (∀ m, contents h' m ⊆ contents h m) →
  ∀ n, descendants_upto fuel h' n ⊆ descendants_upto fuel h n.
Proof.
  intros Hsub. induction fuel as [|fuel IH]; intros n m; simpl; [done|].
  rewrite !list_elem_of_bind. intros (c & Hm & Hc). exists c.
  split; [|by apply Hsub]. apply elem_of_cons in Hm as [->|Hm]; [by left|].
  right. by apply IH.
Qed.

Lemma decompose_each_spec l : ∀ h,
  wf h →
  ∃ h', decompose_each l h = Ok h' ∧ wf h' ∧ length h' = length h
        ∧ same_data h h'
        ∧ (∀ m, contents h' m ⊆ contents h m)
        ∧ (∀ x m, x ∈ l → x ∉ contents h' m).
Proof.
  induction l as [|x l IH]; intros h Hwf; simpl.
  - exists h. split_and!; try done; try apply same_data_refl.
    intros x m Hx. by apply elem_of_nil in Hx.
  - unfold decompose.
    destruct (extract_total h x Hwf) as (h1 & -> & Hwf1 & Hlen1 & Hd1 & _ & Hc1 & Hx1).
    cbn [bind].
    destruct (IH h1 Hwf1) as (h' & He & Hwf' & Hlen' & Hd' & Hc' & Hl').
    exists h'. split_and!; try done.
    + lia.
    + by eapply same_data_trans.
    + intros m y Hy. by apply Hc1, Hc'.
    + intros y m [->|Hy]%elem_of_cons; [|by apply Hl'].
      intros Hin. by apply (Hx1 m), Hc'.
Qed.

Lemma is_note_paragraph_same h h' n :
  same_data h h' → n < length h → is_note_paragraph h' n = is_note_paragraph h n.
Proof.
  intros [_ D] Hn. destruct (D n Hn) as (Hnm & Ha & _).
  unfold is_note_paragraph, has_name, attr_matches. by rewrite Hnm, Ha.
Qed.

Lemma remove_notes_spec h :
  wf h →
  ∃ h', remove_notes h = Ok h' ∧ wf h' ∧ same_data h h'
        ∧ (∀ n, n ∈ descendants h' root → is_note_paragraph h' n = false)
        ∧ (∀ n, n ∈ find_all_class h (lit "p") (lit "note") →
                n ∉ descendants h' root).
Proof.
  intros Hwf. unfold remove_notes.
  destruct (decompose_each_spec (find_all_class h (lit "p") (lit "note")) h Hwf)
    as (h' & He & Hwf' & Hlen & Hd & Hsub & Hgone).
  exists h'. split_and!; try done.
  - intros n Hn. unfold descendants in Hn. rewrite Hlen in Hn.
    destruct (descendants_upto_listed _ _ _ _ Hn) as [q Hq].
    pose proof (descendants_upto_subset h h' _ Hsub _ _ Hn) as Hn0.
    assert (Hlt : n < length h).
    { rewrite <- Hlen. eapply parent_in_range. by apply (wf_child _ _ _ Hwf'). }
    rewrite (is_note_paragraph_same h h') by done.
    destruct (is_note_paragraph h n) eqn:Hnote; [|done].
    exfalso. apply (Hgone n q); [|done].
    unfold find_all_class. apply list_elem_of_filter. split; [|done].
    apply Hnote.
  - intros n Hn Hin. unfold descendants in Hin.
    destruct (descendants_upto_listed _ _ _ _ Hin) as [q Hq].
    by apply (Hgone n q).
Qed.

Lemma add_namespace_wf h h' :
  add_namespace h = Ok h' → wf h → wf h' ∧ length h' = length h.
Proof.
  unfold add_namespace. destruct (find_name h (lit "html")) as [html|]; [|done].
  destruct (dict_mem _ _); intros [= <-] Hwf; [done|]. split.
  - apply (wf_same_structure h); [| |done]; intros m.
    + apply parent_setitem.
    + apply contents_setitem.
  - apply length_alter.
Qed.

(** ** The descendants of a node *)

Lemma descendants_upto_complete h n c :
  wf h → below h n c → ∀ fuel, c ≤ fuel + n → c ∈ descendants_upto fuel h n.
Proof.
  intros Hwf. induction 1 as [n c Hc|n c0 c Hc0 Hb IH]; intros fuel Hfuel.
  - pose proof (wf_order _ _ Hwf n c Hc). destruct fuel as [|fuel]; [lia|].
    simpl. apply list_elem_of_bind. exists c. split; [by left|done].
  - pose proof (wf_order _ _ Hwf n c0 Hc0). destruct fuel as [|fuel].
    + assert (c0 < c); [|lia]. clear -Hwf Hb. induction Hb as [n c Hc|n c1 c Hc1 _ IH].
      * by eapply wf_order.
      * pose proof (wf_order _ _ Hwf n c1 Hc1). lia.
    + simpl. apply list_elem_of_bind. exists c0. split; [|done].
      right. apply IH. lia.
Qed.

Lemma descendants_upto_below h fuel : ∀ n c,
  c ∈ descendants_upto fuel h n → below h n c.
Proof.
  induction fuel as [|fuel IH]; intros n c; simpl; [by intros ?%elem_of_nil|].
  intros (c0 & Hc & Hc0)%list_elem_of_bind.
  apply elem_of_cons in Hc as [->|Hc]; [by apply below_child|].
  eapply below_step; [done|]. by apply IH.
Qed.

(** On a well-formed document [descendants] lists exactly the nodes
    of the tree. *)
Lemma descendants_below h c : wf h → c ∈ descendants h root ↔ below h root c.
Proof.
  intros Hwf. split; [apply descendants_upto_below|].
  intros Hb. apply descendants_upto_complete; [done..|].
  assert (c < length h); [|lia].
  assert (∃ q, c ∈ contents h q) as [q Hq].
  { clear -Hb. induction Hb as [n c Hc|n c0 c _ _ IH]; [by exists n|done]. }
  eapply parent_in_range. by apply wf_child.
Qed.

Lemma below_lt h n c : wf h → below h n c → n < c.
Proof.
  intros Hwf. induction 1 as [n c Hc|n c0 c Hc0 _ IH].
  - by eapply wf_order.
  - pose proof (wf_order _ _ Hwf n c0 Hc0). lia.
Qed.

(** The last step of a path down the tree is a parent link. *)
Lemma below_parent h n c :
  wf h → below h n c →
  parent h c = Some n ∨ ∃ r, parent h c = Some r ∧ below h n r.
Proof.
  intros Hwf. induction 1 as [n c Hc|n c0 c Hc0 Hb IH].
  - left. by apply wf_child.
  - right. destruct IH as [Hp|(r & Hp & Hr)].
    + exists c0. split; [done|]. by apply below_child.
    + exists r. split; [done|]. by eapply below_step.
Qed.

(** Two children of one node have no node in common below them. *)
Lemma siblings_disjoint h n c1 c2 : wf h →
  c1 ∈ contents h n → c2 ∈ contents h n →
  ∀ y, (y = c1 ∨ below h c1 y) → (y = c2 ∨ below h c2 y) → c1 = c2.
Proof.
  intros Hwf H1 H2 y. induction (lt_wf y) as [y _ IH]. intros Hy1 Hy2.
  pose proof (wf_order _ _ Hwf n c1 H1) as Hn1.
  pose proof (wf_order _ _ Hwf n c2 H2) as Hn2.
  pose proof (wf_child _ _ _ Hwf H1) as Hp1.
  pose proof (wf_child _ _ _ Hwf H2) as Hp2.
  assert (Hside : ∀ a b, a ∈ contents h n → parent h a = Some n → n < b →
                         below h b a → False).
  { intros a b Ha Hpa Hnb Hba.
    destruct (below_parent h b a Hwf Hba) as [Hp|(r & Hp & Hr)].
    - assert (b = n) by congruence. lia.
    - assert (r = n) by congruence. subst r.
      pose proof (below_lt h b n Hwf Hr). lia. }
  destruct Hy1 as [->|Hb1], Hy2 as [->|Hb2].
  - done.
  - by destruct (Hside c1 c2).
  - by destruct (Hside c2 c1).
  - destruct (below_parent h c1 y Hwf Hb1) as [Hq1|(r1 & Hq1 & Hr1)],
             (below_parent h c2 y Hwf Hb2) as [Hq2|(r2 & Hq2 & Hr2)].
    + congruence.
    + assert (r2 = c1) by congruence. subst r2.
      apply (IH c1); [by apply (below_lt h c1 y)|by left|by right].
    + assert (r1 = c2) by congruence. subst r1.
      apply (IH c2); [by apply (below_lt h c2 y)|by right|by left].
    + assert (r2 = r1) by congruence. subst r2.
      apply (IH r1); [by eapply wf_parent_lt|by right|by right].
Qed.

Lemma descendants_upto_NoDup h fuel : wf h → ∀ n, NoDup (descendants_upto fuel h n).
Proof.
  intros Hwf. induction fuel as [|fuel IH]; intros n; simpl; [constructor|].
  apply NoDup_bind.
  - intros c1 c2 y H1 H2 Hy1 Hy2. apply (siblings_disjoint h n c1 c2 Hwf H1 H2 y).
    + apply elem_of_cons in Hy1 as [->|Hy1]; [by left|].
      right. by eapply descendants_upto_below.
    + apply elem_of_cons in Hy2 as [->|Hy2]; [by left|].
      right. by eapply descendants_upto_below.
  - intros c Hc. apply NoDup_cons. split; [|apply IH].
    intros Hin%descendants_upto_below. pose proof (below_lt h c c Hwf Hin). lia.
  - apply (wf_nodup _ _ Hwf).
Qed.

(** ** Occurrences in the candidate sequence *)

Lemma occurrences_app n l1 l2 : occurrences n (l1 ++ l2) = occurrences n l1 + occurrences n l2.
Proof. unfold occurrences. by rewrite filter_app, length_app. Qed.

Lemma occurrences_cons_eq n l : occurrences n (n :: l) = S (occurrences n l).
Proof. unfold occurrences. by rewrite filter_cons_True. Qed.

Lemma occurrences_notin n l : n ∉ l → occurrences n l = 0.
Proof.
  unfold occurrences. induction l as [|x l IH]; [done|].
  intros [Hx Hl]%not_elem_of_cons. rewrite filter_cons_False by done. by apply IH.
Qed.

Lemma occurrences_NoDup n l : NoDup l → n ∈ l → occurrences n l = 1.
Proof.
  unfold occurrences. induction 1 as [|x l Hx Hnd IH]; [by intros ?%elem_of_nil|].
  intros [->|Hin]%elem_of_cons.
  - rewrite filter_cons_True by done. simpl. f_equal. by apply occurrences_notin.
  - rewrite filter_cons_False; [by apply IH|]. by intros ->.
Qed.

Lemma occurrences_concat n (ls : list (list ref)) :
  occurrences n (concat ls) = sum_list (occurrences n <$> ls).
Proof.
  induction ls as [|l ls IH]; [done|]. simpl. by rewrite occurrences_app, IH.
Qed.

(** A rule selects a node of the tree once if it matches, else not at
    all. *)
Lemma occurrences_select h rule n :
  wf h →
  occurrences n (select h rule)
  = if decide (n ∈ descendants h root ∧ matches h rule n = true) then 1 else 0.
Proof.
  intros Hwf. unfold select. case_decide as Hd.
  - apply occurrences_NoDup.
    + apply NoDup_filter. by apply descendants_upto_NoDup.
    + apply list_elem_of_filter. tauto.
  - apply occurrences_notin. rewrite list_elem_of_filter. tauto.
Qed.

Lemma sum_matching {A} (P : A → Prop) `{∀ x, Decision (P x)} (Q : Prop) `{Decision Q}
    (l : list A) :
  sum_list ((λ x, if decide (Q ∧ P x) then 1 else 0) <$> l)
  = if decide Q then length (filter P l) else 0.
Proof.
  induction l as [|x l IH]; [by destruct (decide Q)|].
  rewrite fmap_cons. cbn [sum_list sum_list_with]. rewrite IH, filter_cons.
  destruct (decide Q), (decide (P x)); simpl;
    (rewrite decide_True by tauto) || (rewrite decide_False by tauto); done.
Qed.

Lemma process_all_at need_jump l1 n l2 start st :
  process_all need_jump (enumerate (l1 ++ n :: l2) start) st =
    let* st := process_all need_jump (enumerate l1 start) st in
    let* st := process_noteref need_jump (start + length l1) n st in
    process_all need_jump (enumerate l2 (S (start + length l1))) st.
Proof.
  rewrite enumerate_app, process_all_app. simpl.
  destruct (process_all need_jump (enumerate l1 start) st); simpl; [|done].
  by destruct (process_noteref need_jump (start + length l1) n a).
Qed.

(** ** Counting the rewrites *)

Lemma string_value_not_tag h n s : string_value h n = Some s → name h n = None.
Proof. unfold string_value, name. by destruct (h !! n) as [[]|]. Qed.

Lemma bind_Ok {A B} (m : result A) (k : A → result B) b :
  bind m k = Ok b → ∃ a, m = Ok a ∧ k a = Ok b.
Proof. destruct m as [a|]; [|done]. intros H. by exists a. Qed.

Lemma process_noteref_counts need_jump idx noteref st st' :
  process_noteref need_jump idx noteref st = Ok st' →
  resolves (soup st) idx noteref → processed_notes st' = S (processed_notes st).
Proof.
  intros (s & Hs & Hcase)%process_noteref_inv (s' & d & Hs' & Hd).
  rewrite Hs in Hs'. injection Hs' as <-.
  destruct Hcase as [[Hf _]|(d' & h2 & h3 & _ & _ & _ & _ & Hn)]; [congruence|done].
Qed.

(** ** The nodes an iteration creates *)

Lemma descendants_upto_ext h h' fuel :
  (∀ m, contents h' m = contents h m) →
  ∀ n, descendants_upto fuel h' n = descendants_upto fuel h n.
Proof.
  intros Hc. induction fuel as [|fuel IH]; intros n; simpl; [done|].
  rewrite Hc. apply list_bind_ext; [|done]. intros c. by rewrite IH.
Qed.

Lemma out_of_range_attrs (h : heap) m : length h ≤ m → attrs h m = [].
Proof. intros Hm. unfold attrs. by rewrite lookup_ge_None_2. Qed.

Lemma string_value_attrs h n s : string_value h n = Some s → attrs h n = [].
Proof. unfold string_value, attrs. by destruct (h !! n) as [[]|]. Qed.

(** The nodes a block creates carry no identifier. *)
Lemma restrung_new_attrs h h' n s m :
  restrung h h' n s → length h ≤ m → attrs h' m = [].
Proof.
  intros Hrs Hm. destruct (decide (m = length h)) as [->|Hne].
  - eapply string_value_attrs, Hrs.
  - apply out_of_range_attrs. rewrite (rs_length _ _ _ _ Hrs). lia.
Qed.

Lemma replace_content_new h d h' m :
  wf h → is_tag h d = true → replace_content d h = Ok h' →
  length h ≤ m → attrs h' m = [].
Proof.
  intros Hwf Htag Hrc Hm. pose proof (replace_content_spec h d Hwf Htag) as Hs.
  destruct (find_parent h d (lit "p")) as [p|].
  - destruct (parent h p) as [q|]; [|congruence].
    destruct Hs as (h3 & l1 & l2 & Hrc' & _ & Hlen & _ & _ & _ & _ & Hsv & _).
    rewrite Hrc in Hrc'. injection Hrc' as <-.
    destruct (decide (m = length h)) as [->|Hne].
    + by eapply string_value_attrs.
    + apply out_of_range_attrs. lia.
  - rewrite Hrc in Hs. injection Hs as ->. by apply out_of_range_attrs.
Qed.

Lemma add_jump_new jump h idx noteref d h' m :
  wf h → is_tag h d = true → add_jump jump idx noteref d h = Ok h' →
  length h ≤ m → dict_get (lit "id") (attrs h' m) = None.
Proof.
  intros Hwf Htag Haj Hm. destruct jump.
  2:{ rewrite add_jump_off in Haj. injection Haj as <-.
      by rewrite out_of_range_attrs. }
  destruct (dict_get (lit "id") (attrs h noteref)) as [[i|l]|] eqn:Hid.
  - pose proof (add_jump_spec h idx noteref d i Hwf Htag Hid) as Hs.
    destruct (parent h d) as [q|]; [|congruence].
    destruct Hs as (h3 & l1 & l2 & Haj' & _ & Hlen & _ & _ & _ & Hnew & Ht & _).
    rewrite Haj in Haj'. injection Haj' as <-.
    destruct (decide (m = length h)) as [->|Hne].
    + unfold attrs. by rewrite Hnew.
    + destruct (decide (m = S (length h))) as [->|Hne'].
      * unfold attrs. by rewrite Ht.
      * rewrite out_of_range_attrs; [done|lia].
  - unfold add_jump, getitem in Haj. by rewrite Hid in Haj.
  - unfold add_jump, getitem in Haj. by rewrite Hid in Haj.
Qed.

(** The nodes an iteration creates carry no identifier. *)
Lemma process_noteref_new need_jump idx noteref st st' m :
  wf (soup st) → process_noteref need_jump idx noteref st = Ok st' →
  length (soup st) ≤ m → dict_get (lit "id") (attrs (soup st') m) = None.
Proof.
  intros Hwf Hp Hm. pose proof (h1_wf idx noteref st Hwf) as Hwf1.
  pose proof (h1_length idx noteref st) as Hlen1. cbv zeta in Hwf1, Hlen1.
  apply process_noteref_inv in Hp as (s & Hhref & Hcase). cbv zeta in Hcase.
  set (h1 := setitem noteref (lit "id") (AttrStr (nootref idx)) (soup st)) in *.
  pose proof (getitem_is_tag _ _ _ _ Hhref) as Hr.
  assert (Hr1 : is_tag h1 noteref = true).
  { unfold is_tag, h1. rewrite name_setitem. apply Hr. }
  destruct Hcase as [[Hf ->]|(d & h2 & h3 & Hf & Hmark & Hrc & Haj & Hn)]; simpl.
  - rewrite out_of_range_attrs; [done|lia].
  - apply find_id_Some in Hf as (Hd & _ & _).
    pose proof (is_tag_in_range _ _ Hd) as Hdl.
    destruct (mark_pair_spec h1 noteref d Hwf1 Hr1 Hd)
      as (h2' & Hm' & Hwf2 & Hlen2 & _ & _ & Hsv2 & _ & Hname2 & _).
    rewrite Hmark in Hm'. injection Hm' as <-.
    assert (Hd2 : is_tag h2 d = true).
    { unfold is_tag. by rewrite Hname2, decide_True. }
    destruct (replace_content_ok h2 d h3 Hwf2 Hd2 Hrc) as (Hwf3 & [Hle3 D3] & _).
    assert (Hd3 : is_tag h3 d = true).
    { rewrite (same_data_is_tag h2 h3); [done|by split|lia]. }
    destruct (add_jump_ok _ _ _ _ _ _ Hwf3 Hd3 Haj) as (Hwf4 & [Hle4 D4] & _).
    assert (H2 : attrs h2 m = []).
    { destruct (decide (m = length h1)) as [->|Hne].
      - by eapply string_value_attrs.
      - apply out_of_range_attrs. lia. }
    assert (H3 : attrs h3 m = []).
    { destruct (decide (m < length h2)) as [Hlt|Hge].
      - destruct (D3 m Hlt) as (_ & -> & _). done.
      - apply (replace_content_new h2 d h3); try done. lia. }
    destruct (decide (m < length h3)) as [Hlt|Hge].
    + destruct (D4 m Hlt) as (_ & -> & _). by rewrite H3.
    + apply (add_jump_new need_jump h3 idx noteref d (soup st') m Hwf3 Hd3 Haj). lia.
Qed.

Lemma length_setitem (h : heap) n k v : length (setitem n k v h) = length h.
Proof. apply length_alter. Qed.

(** ** Document order under the rewrite *)

Lemma filter_sublist {A} (P : A → Prop) `{∀ x, Decision (P x)} (l k : list A) :
  l `sublist_of` k → filter P l `sublist_of` filter P k.
Proof.
  induction 1 as [|x l k _ IH|x l k _ IH]; [done| |].
  - rewrite !filter_cons. destruct (decide (P x)); [by apply sublist_skip|done].
  - rewrite filter_cons. destruct (decide (P x)); [by apply sublist_cons|done].
Qed.

Lemma filter_bind {A B} (P : B → Prop) `{∀ x, Decision (P x)} (f : A → list B) l :
  filter P (l ≫= f) = l ≫= (λ x, filter P (f x)).
Proof.
  induction l as [|x l IH]; [done|]. by rewrite !bind_cons, filter_app, IH.
Qed.

Lemma bind_ext_in {A B} (f g : A → list B) l :
  (∀ x, x ∈ l → f x = g x) → l ≫= f = l ≫= g.
Proof.
  induction l as [|x l IH]; intros Hfg; [done|]. rewrite !bind_cons.
  rewrite Hfg by (by left). f_equal. apply IH. intros y Hy. apply Hfg. by right.
Qed.

Lemma bind_filter_nil {A B} (P : A → Prop) `{∀ x, Decision (P x)} (f : A → list B) l :
  (∀ x, x ∈ l → ¬ P x → f x = []) → l ≫= f = filter P l ≫= f.
Proof.
  induction l as [|x l IH]; intros Hf; [done|]. rewrite bind_cons, filter_cons.
  rewrite IH by (intros y Hy; apply Hf; by right).
  destruct (decide (P x)); [by rewrite bind_cons|].
  by rewrite Hf by (done || by left).
Qed.

Lemma olds_olds N M l : N ≤ M → olds N (olds M l) = olds N l.
Proof.
  intros HNM. unfold olds. induction l as [|x l IH]; [done|].
  rewrite !filter_cons. destruct (decide (x < M)), (decide (x < N)); try lia.
  - by rewrite filter_cons_True, IH.
  - by rewrite filter_cons_False, IH.
  - done.
Qed.

Lemma olds_all N l : (∀ x, x ∈ l → x < N) → olds N l = l.
Proof.
  unfold olds. induction l as [|x l IH]; intros Hl; [done|].
  rewrite filter_cons_True by (apply Hl; by left).
  f_equal. apply IH. intros y Hy. apply Hl. by right.
Qed.

Lemma olds_none N l : (∀ x, x ∈ l → N ≤ x) → olds N l = [].
Proof.
  unfold olds. induction l as [|x l IH]; intros Hl; [done|].
  rewrite filter_cons_False by (pose proof (Hl x ltac:(by left)); lia).
  apply IH. intros y Hy. apply Hl. by right.
Qed.

Lemma olds_nil_new N l x : olds N l = [] → x ∈ l → N ≤ x.
Proof.
  unfold olds. intros Hl Hx. destruct (decide (x < N)) as [Hlt|]; [|lia].
  assert (x ∈ filter (λ n, n < N) l) as Hin by (by apply list_elem_of_filter).
  rewrite Hl in Hin. by apply elem_of_nil in Hin.
Qed.

(** More fuel than the store has nodes changes nothing. *)
Lemma descendants_upto_enough h :
  wf h → ∀ fuel n, length h ≤ fuel + n →
  descendants_upto (S fuel) h n = descendants_upto fuel h n.
Proof.
  intros Hwf. induction fuel as [|fuel IH]; intros n Hn.
  - simpl. unfold contents. by rewrite lookup_ge_None_2 by lia.
  - change (descendants_upto (S (S fuel)) h n)
      with (contents h n ≫= λ c, c :: descendants_upto (S fuel) h c).
    change (descendants_upto (S fuel) h n)
      with (contents h n ≫= λ c, c :: descendants_upto fuel h c).
    apply bind_ext_in. intros c Hc. f_equal. apply IH.
    pose proof (wf_order _ _ Hwf n c Hc). lia.
Qed.

Lemma descendants_fuel h fuel :
  wf h → length h ≤ fuel → descendants_upto fuel h root = descendants h root.
Proof.
  intros Hwf Hf. unfold descendants.
  replace fuel with ((fuel - length h) + length h) by lia.
  induction (fuel - length h) as [|k IH]; [done|].
  simpl plus. rewrite descendants_upto_enough; [done|done|]. unfold root. lia.
Qed.

Lemma new_subtree h' N :
  (∀ m c, N ≤ m → c ∈ contents h' m → N ≤ c) →
  ∀ fuel c, N ≤ c → olds N (descendants_upto fuel h' c) = [].
Proof.
  intros Hnew. induction fuel as [|fuel IH]; intros c Hc; [done|].
  apply olds_none. intros x Hx. simpl in Hx.
  apply list_elem_of_bind in Hx as (c0 & Hx & Hc0).
  pose proof (Hnew c c0 Hc Hc0) as Hc0n.
  apply elem_of_cons in Hx as [->|Hx]; [done|].
  eapply olds_nil_new; [by apply (IH c0)|done].
Qed.

Lemma reshaped_upto h h' :
  wf h → reshaped h h' →
  ∀ fuel n, length h ≤ fuel + n →
  olds (length h) (descendants_upto fuel h' n) `sublist_of` descendants_upto fuel h n.
Proof.
  intros Hwf [Hnew Hemb]. induction fuel as [|fuel IH]; intros n Hn; [done|].
  simpl. unfold olds at 1. rewrite filter_bind.
  rewrite (bind_filter_nil (λ c, c < length h)).
  2:{ intros c Hc Hge. rewrite filter_cons_False by done.
      apply (new_subtree h' (length h) Hnew). lia. }
  destruct (Hemb n) as (ks & Hks & Hall).
  transitivity (ks ≫= λ c, c :: descendants_upto fuel h c);
    [|by apply bind_sublist].
  assert (Hin : ∀ c, c ∈ ks → n < c).
  { intros c Hc. apply (wf_order _ _ Hwf). by eapply elem_of_sublist. }
  assert (Hold : Forall (λ c, c < length h) (olds (length h) (contents h' n))).
  { apply Forall_forall. intros c Hc. unfold olds in Hc.
    by apply list_elem_of_filter in Hc as [? _]. }
  fold (olds (length h) (contents h' n)). clear Hks. revert Hin Hold.
  induction Hall as [|c' c l' l Hcc _ IHl]; intros Hin Hold; [done|].
  rewrite !bind_cons. apply Forall_cons in Hold as [Hc' Hold].
  apply sublist_app.
  - rewrite filter_cons_True by done. destruct Hcc as [->|[Hb Hkept]].
    + apply sublist_skip. apply IH. pose proof (Hin c ltac:(by left)). lia.
    + assert (Hnone : filter (λ n0, n0 < length h) (descendants_upto fuel h' c') = []).
      { destruct fuel as [|fuel']; [done|]. apply (olds_none (length h)).
        intros x Hx. simpl in Hx. apply list_elem_of_bind in Hx as (c0 & Hx & Hc0).
        pose proof (olds_nil_new _ _ _ Hkept Hc0) as Hc0n.
        apply elem_of_cons in Hx as [->|Hx]; [done|].
        eapply olds_nil_new; [by apply (new_subtree h' (length h) Hnew fuel' c0)|done]. }
      rewrite Hnone. apply singleton_sublist_l. right.
      apply descendants_upto_complete; [done..|].
      pose proof (Hin c ltac:(by left)). lia.
  - apply IHl; [|done]. intros x Hx. apply Hin. by right.
Qed.

(** Among the nodes that were there before, the rewritten tree lists
    no node the old tree did not list, and in the same order. *)
Lemma reshaped_descendants h h' :
  wf h → reshaped h h' → length h ≤ length h' →
  olds (length h) (descendants h' root) `sublist_of` descendants h root.
Proof.
  intros Hwf Hre Hlen. rewrite <- (descendants_fuel h (length h')) by done.
  apply reshaped_upto; [done..|lia].
Qed.

Lemma wf_child_old h m c : wf h → c ∈ contents h m → c < length h.
Proof. intros Hwf Hc. eapply parent_in_range. by apply wf_child. Qed.

Lemma out_of_range_contents (h : heap) m : length h ≤ m → contents h m = [].
Proof. intros Hm. unfold contents. by rewrite lookup_ge_None_2. Qed.

Lemma stands_for_refl h h' l : Forall2 (stands_for h h') l l.
Proof. induction l; constructor; [by left|done]. Qed.

Lemma same_children h h' m :
  wf h → contents h' m = contents h m →
  ∃ ks, ks `sublist_of` contents h m
        ∧ Forall2 (stands_for h h') (olds (length h) (contents h' m)) ks.
Proof.
  intros Hwf ->. exists (contents h m). split; [done|].
  rewrite olds_all; [apply stands_for_refl|].
  intros c Hc. by eapply wf_child_old.
Qed.

Lemma fewer_children h h' m :
  wf h → contents h' m `sublist_of` contents h m →
  ∃ ks, ks `sublist_of` contents h m
        ∧ Forall2 (stands_for h h') (olds (length h) (contents h' m)) ks.
Proof.
  intros Hwf Hsub. exists (contents h' m). split; [done|].
  rewrite olds_all; [apply stands_for_refl|].
  intros c Hc. eapply wf_child_old; [done|]. by eapply elem_of_sublist.
Qed.

Lemma new_children h h' m :
  olds (length h) (contents h' m) = [] →
  ∃ ks, ks `sublist_of` contents h m
        ∧ Forall2 (stands_for h h') (olds (length h) (contents h' m)) ks.
Proof. intros ->. exists []. split; [apply sublist_nil_l|constructor]. Qed.

Lemma reshaped_refl h : wf h → reshaped h h.
Proof.
  intros Hwf. split.
  - intros m c Hm Hc. rewrite out_of_range_contents in Hc by done.
    by apply elem_of_nil in Hc.
  - intros m. by apply same_children.
Qed.

Lemma parents_upto_below h fuel : ∀ d p,
  wf h → p ∈ parents_upto fuel h d → below h p d.
Proof.
  induction fuel as [|fuel IH]; intros d p Hwf; simpl; [by intros ?%elem_of_nil|].
  destruct (parent h d) as [r|] eqn:Hr; [|by intros ?%elem_of_nil].
  pose proof (wf_listed _ _ _ Hwf Hr) as Hd.
  intros [->|Hin]%elem_of_cons; [by apply below_child|].
  specialize (IH r p Hwf Hin). clear -IH Hd.
  induction IH as [n c Hc|n c0 c Hc0 Hb IH'].
  - eapply below_step; [done|]. by apply below_child.
  - eapply below_step; [done|]. by apply IH'.
Qed.

Lemma parents_upto_complete h a : wf h →
  ∀ fuel d, below h a d → d ≤ fuel + a → a ∈ parents_upto fuel h d.
Proof.
  intros Hwf. induction fuel as [|fuel IH]; intros d Hb Hd.
  - pose proof (below_lt _ _ _ Hwf Hb). lia.
  - simpl. destruct (below_parent _ _ _ Hwf Hb) as [Hp|(r & Hp & Hr)]; rewrite Hp.
    + by left.
    + right. apply IH; [done|]. pose proof (wf_parent_lt _ _ _ Hwf Hp). lia.
Qed.

(** On a well-formed document [parents] lists exactly the ancestors. *)
Lemma parents_below h a d : wf h → a ∈ parents h d ↔ below h a d.
Proof.
  intros Hwf. split; [by apply parents_upto_below|].
  intros Hb. apply parents_upto_complete; [done..|].
  assert (d < length h); [|lia].
  destruct (below_parent _ _ _ Hwf Hb) as [Hp|(r & Hp & _)];
    by eapply parent_in_range.
Qed.

Lemma mark_pair_reshaped h noteref d h' :
  wf h → is_tag h noteref = true → is_tag h d = true →
  mark_pair noteref d h = Ok h' → reshaped h h'.
Proof.
  intros Hwf Hr Hd Hm.
  destruct (mark_pair_spec h noteref d Hwf Hr Hd) as (h2 & Hm' & _ & _ & _ & Hc & _).
  rewrite Hm in Hm'. injection Hm' as <-.
  pose proof (is_tag_in_range _ _ Hr) as Hrl. split.
  - intros m c Hge. rewrite Hc, decide_False by lia.
    rewrite out_of_range_contents by done. by intros ?%elem_of_nil.
  - intros m. destruct (decide (m = noteref)) as [->|Hne].
    + apply new_children. rewrite Hc, decide_True by done.
      apply olds_none. intros x ->%list_elem_of_singleton. done.
    + apply same_children; [done|]. by rewrite Hc, decide_False.
Qed.

Lemma replace_content_reshaped h d h' :
  wf h → is_tag h d = true → replace_content d h = Ok h' → reshaped h h'.
Proof.
  intros Hwf Htag Hrc. pose proof (replace_content_spec h d Hwf Htag) as Hs.
  pose proof (is_tag_in_range _ _ Htag) as Hdl.
  destruct (find_parent h d (lit "p")) as [p|].
  2:{ rewrite Hrc in Hs. injection Hs as ->. by apply reshaped_refl. }
  destruct (parent h p) as [q|] eqn:Hq; [|congruence].
  destruct Hs as (h3 & l1 & l2 & Hrc' & _ & _ & _ & Hcq & Hcq' & Hcd & _ & _ & _ & _
                  & _ & Hsub & Hin).
  rewrite Hrc in Hrc'. injection Hrc' as <-.
  pose proof (parent_in_range _ _ _ Hq) as Hpl.
  pose proof (wf_parent_lt _ _ _ Hwf Hq) as Hqp.
  pose proof (parents_upto_lt _ _ _ _ Hwf Hin) as Hpd.
  assert (Hdnew : olds (length h) (contents h' d) = []).
  { rewrite Hcd. apply olds_none. by intros x ->%list_elem_of_singleton. }
  split.
  - intros m c Hge Hc. destruct (decide (m = d)) as [->|Hmd]; [lia|].
    assert (Hmq : m ≠ q) by lia.
    pose proof (elem_of_sublist _ _ _ Hc (Hsub m Hmd Hmq)) as Hc'.
    rewrite out_of_range_contents in Hc' by done. by apply elem_of_nil in Hc'.
  - intros m. destruct (decide (m = q)) as [->|Hmq].
    + exists (contents h q). split; [done|]. rewrite Hcq', Hcq.
      assert (Hall : ∀ c, c ∈ l1 ++ d :: l2 → c < length h).
      { intros c [Hc|[->|Hc]%elem_of_cons]%elem_of_app; [|done|].
        - apply (wf_child_old h q); [done|]. rewrite Hcq. set_solver.
        - apply (wf_child_old h q); [done|]. rewrite Hcq. set_solver. }
      rewrite olds_all by done.
      apply Forall2_app; [apply stands_for_refl|].
      constructor; [|apply stands_for_refl].
      right. split; [|done]. by eapply parents_upto_below.
    + destruct (decide (m = d)) as [->|Hmd]; [by apply new_children|].
      apply fewer_children; [done|]. by apply Hsub.
Qed.

Lemma add_jump_reshaped jump h idx noteref d h' :
  wf h → is_tag h d = true → add_jump jump idx noteref d h = Ok h' → reshaped h h'.
Proof.
  intros Hwf Htag Haj. destruct jump.
  2:{ rewrite add_jump_off in Haj. injection Haj as <-. by apply reshaped_refl. }
  destruct (dict_get (lit "id") (attrs h noteref)) as [[i|l]|] eqn:Hid.
  2,3: unfold add_jump, getitem in Haj; by rewrite Hid in Haj.
  pose proof (add_jump_spec h idx noteref d i Hwf Htag Hid) as Hs.
  destruct (parent h d) as [q|] eqn:Hq; [|congruence].
  destruct Hs as (h3 & l1 & l2 & Haj' & _ & Hlen & _ & Hcq & Hcq' & Hnew & Ht & Hc & _).
  rewrite Haj in Haj'. injection Haj' as <-.
  pose proof (parent_in_range _ _ _ Hq) as Hdl.
  pose proof (wf_parent_lt _ _ _ Hwf Hq) as Hqd.
  assert (Hcn : contents h' (length h) = [S (length h)]).
  { unfold contents. by rewrite Hnew. }
  assert (Hct : contents h' (S (length h)) = []).
  { unfold contents. by rewrite Ht. }
  assert (Hnews : ∀ m c, length h ≤ m → c ∈ contents h' m → length h ≤ c).
  { intros m c Hge. destruct (decide (m = length h)) as [->|Hne].
    - rewrite Hcn. intros ->%list_elem_of_singleton. lia.
    - destruct (decide (m = S (length h))) as [->|Hne'].
      + rewrite Hct. by intros ?%elem_of_nil.
      + rewrite out_of_range_contents by lia. by intros ?%elem_of_nil. }
  split; [done|].
  intros m. destruct (decide (m = q)) as [->|Hmq].
  - exists (contents h q). split; [done|]. rewrite Hcq', Hcq.
    assert (Hall : ∀ c, c ∈ l1 ++ d :: l2 → c < length h).
    { intros c Hc'. apply (wf_child_old h q); [done|]. by rewrite Hcq. }
    unfold olds. rewrite filter_app, filter_cons_False by lia.
    rewrite <- filter_app. fold (olds (length h) (l1 ++ d :: l2)).
    rewrite olds_all by done. apply stands_for_refl.
  - destruct (decide (m < length h)) as [Hlt|Hge].
    + apply same_children; [done|]. by apply Hc.
    + apply new_children. apply olds_none. intros c Hc'.
      apply (Hnews m); [lia|done].
Qed.

(** The states a completed iteration for a resolved pair goes through. *)
Lemma process_noteref_stages need_jump idx noteref st st' :
  wf (soup st) → process_noteref need_jump idx noteref st = Ok st' →
  let h1 := setitem noteref (lit "id") (AttrStr (nootref idx)) (soup st) in
  wf h1 ∧ length h1 = length (soup st) ∧ is_tag h1 noteref = true
  ∧ ((soup st' = h1 ∧ ¬ resolves (soup st) idx noteref)
     ∨ ∃ d h2 h3,
         resolves (soup st) idx noteref
         ∧ mark_pair noteref d h1 = Ok h2
         ∧ replace_content d h2 = Ok h3
         ∧ add_jump need_jump idx noteref d h3 = Ok (soup st')
         ∧ is_tag h1 d = true ∧ is_tag h2 d = true ∧ is_tag h3 d = true
         ∧ wf h2 ∧ wf h3 ∧ wf (soup st')
         ∧ length h1 ≤ length h2 ∧ same_data h2 h3 ∧ same_data h3 (soup st')
         ∧ (∀ m, m < length h1 → is_tag h2 m = is_tag h1 m)).
Proof.
  intros Hwf Hp h1. pose proof (h1_wf idx noteref st Hwf) as Hwf1.
  pose proof (h1_length idx noteref st) as Hlen1. cbv zeta in Hwf1, Hlen1.
  fold h1 in Hwf1, Hlen1.
  apply process_noteref_inv in Hp as (s & Hhref & Hcase). cbv zeta in Hcase.
  fold h1 in Hcase.
  pose proof (getitem_is_tag _ _ _ _ Hhref) as Hr.
  assert (Hr1 : is_tag h1 noteref = true).
  { unfold is_tag, h1. rewrite name_setitem. apply Hr. }
  split_and!; try done.
  destruct Hcase as [[Hf ->]|(d & h2 & h3 & Hf & Hmark & Hrc & Haj & Hn)].
  - left. split; [done|]. intros (s' & d & Hs' & Hd).
    rewrite Hhref in Hs'. injection Hs' as <-. fold h1 in Hd. congruence.
  - right. exists d, h2, h3.
    pose proof (find_id_Some _ _ _ Hf) as (Hd & _ & _).
    pose proof (is_tag_in_range _ _ Hd) as Hdl.
    destruct (mark_pair_spec h1 noteref d Hwf1 Hr1 Hd)
      as (h2' & Hm' & Hwf2 & Hlen2 & _ & _ & _ & _ & Hname2 & _).
    rewrite Hmark in Hm'. injection Hm' as <-.
    assert (Hd2 : is_tag h2 d = true).
    { unfold is_tag. by rewrite Hname2, decide_True. }
    destruct (replace_content_ok h2 d h3 Hwf2 Hd2 Hrc) as (Hwf3 & Hdata3 & _).
    assert (Hd3 : is_tag h3 d = true).
    { rewrite (same_data_is_tag h2 h3); [done|done|lia]. }
    destruct (add_jump_ok _ _ _ _ _ _ Hwf3 Hd3 Haj) as (Hwf4 & Hdata4 & _).
    split_and!; try done.
    + by exists s, d.
    + lia.
    + intros m Hm. unfold is_tag at 1. rewrite Hname2 by done.
      destruct (decide (m = d)) as [->|]; [by rewrite Hd|done].
Qed.

(** Among the nodes that were there before an iteration, the tree
    after it lists no node that the tree before did not list, and
    lists them in the same order. *)
Lemma process_noteref_order need_jump idx noteref st st' :
  wf (soup st) → process_noteref need_jump idx noteref st = Ok st' →
  olds (length (soup st)) (descendants (soup st') root)
  `sublist_of` descendants (soup st) root.
Proof.
  intros Hwf Hp.
  destruct (process_noteref_stages _ _ _ _ _ Hwf Hp) as (Hwf1 & Hlen1 & Hr1 & Hcase).
  set (h1 := setitem noteref (lit "id") (AttrStr (nootref idx)) (soup st)) in *.
  assert (HD1 : descendants h1 root = descendants (soup st) root).
  { unfold descendants. rewrite Hlen1. apply descendants_upto_ext.
    intros m. apply contents_setitem. }
  destruct Hcase as [[-> _]|(d & h2 & h3 & _ & Hmark & Hrc & Haj & Hd1 & Hd2 & Hd3
                             & Hwf2 & Hwf3 & Hwf4 & Hle2 & [Hle3 _] & [Hle4 _] & _)].
  - rewrite HD1. apply sublist_filter.
  - rewrite <- HD1, <- Hlen1.
    pose proof (reshaped_descendants h1 h2 Hwf1
                  (mark_pair_reshaped _ _ _ _ Hwf1 Hr1 Hd1 Hmark) Hle2) as S2.
    pose proof (reshaped_descendants h2 h3 Hwf2
                  (replace_content_reshaped _ _ _ Hwf2 Hd2 Hrc) Hle3) as S3.
    pose proof (reshaped_descendants h3 (soup st') Hwf3
                  (add_jump_reshaped _ _ _ _ _ _ Hwf3 Hd3 Haj) Hle4) as S4.
    rewrite <- (olds_olds _ (length h3)) by lia.
    etrans; [apply filter_sublist, S4|].
    fold (olds (length h1) (descendants h3 root)).
    rewrite <- (olds_olds _ (length h2)) by lia.
    etrans; [apply filter_sublist, S3|]. done.
Qed.

Lemma process_noteref_is_tag need_jump idx noteref st st' m :
  wf (soup st) → process_noteref need_jump idx noteref st = Ok st' →
  m < length (soup st) → is_tag (soup st') m = is_tag (soup st) m.
Proof.
  intros Hwf Hp Hm.
  destruct (process_noteref_stages _ _ _ _ _ Hwf Hp) as (Hwf1 & Hlen1 & Hr1 & Hcase).
  set (h1 := setitem noteref (lit "id") (AttrStr (nootref idx)) (soup st)) in *.
  assert (H1 : is_tag h1 m = is_tag (soup st) m).
  { unfold is_tag, h1. by rewrite name_setitem. }
  destruct Hcase as [[-> _]|(d & h2 & h3 & _ & _ & _ & _ & _ & _ & _
                             & _ & _ & _ & Hle2 & Hd3 & Hd4 & Htags)]; [done|].
  rewrite <- H1, <- Htags by lia.
  apply (same_data_is_tag h2); [by eapply same_data_trans|lia].
Qed.

Lemma filter_ext_in {A} (P Q : A → Prop) `{∀ x, Decision (P x)} `{∀ x, Decision (Q x)}
    (l : list A) :
  (∀ x, x ∈ l → P x ↔ Q x) → filter P l = filter Q l.
Proof.
  induction l as [|x l IH]; intros Hl; [done|]. rewrite !filter_cons.
  rewrite IH by (intros y Hy; apply Hl; by right).
  pose proof (Hl x ltac:(by left)).
  destruct (decide (P x)), (decide (Q x)); tauto.
Qed.

Lemma filter_olds (P : nat → Prop) `{∀ x, Decision (P x)} N (l : list nat) :
  (∀ n, P n → n < N) → filter P (olds N l) = filter P l.
Proof.
  intros HP. unfold olds. induction l as [|x l IH]; [done|].
  rewrite !filter_cons. destruct (decide (x < N)), (decide (P x)).
  - by rewrite filter_cons_True, IH.
  - by rewrite filter_cons_False, IH.
  - specialize (HP x). tauto.
  - done.
Qed.

Lemma head_sublist {A} (l k : list A) x :
  l `sublist_of` x :: k → x ∈ l → x ∉ k → head l = Some x.
Proof.
  intros Hs Hx Hk. destruct l as [|a l]; [by apply elem_of_nil in Hx|].
  apply sublist_cons_r in Hs as [Hs|(l' & [= -> ->] & _)]; [|done].
  destruct Hk. by eapply elem_of_sublist.
Qed.

(** ** What the loop leaves alone *)

Lemma process_noteref_frame need_jump idx noteref st st' :
  wf (soup st) → process_noteref need_jump idx noteref st = Ok st' →
  ∀ m, m < length (soup st) →
    (∀ k, k ≠ lit "id" → k ≠ lit "epub:type" →
          dict_get k (attrs (soup st') m) = dict_get k (attrs (soup st) m))
    ∧ string_value (soup st') m = string_value (soup st) m
    ∧ (name (soup st') m = name (soup st) m
       ∨ name (soup st') m = Some (lit "aside")).
Proof.
  intros Hwf Hp m Hm.
  pose proof (h1_wf idx noteref st Hwf) as Hwf1.
  pose proof (h1_length idx noteref st) as Hlen1.
  apply process_noteref_inv in Hp as (s & Hhref & Hcase).
  pose proof (getitem_is_tag _ _ _ _ Hhref) as Hr.
  set (h1 := setitem noteref (lit "id") (AttrStr (nootref idx)) (soup st)) in *.
  assert (Hr1 : is_tag h1 noteref = true).
  { unfold is_tag, h1. rewrite name_setitem. apply Hr. }
  assert (Ha1 : ∀ k, k ≠ lit "id" →
            dict_get k (attrs h1 m) = dict_get k (attrs (soup st) m)).
  { intros k Hk. unfold h1. destruct (decide (m = noteref)) as [->|Hne].
    - rewrite attrs_setitem_eq by done. by apply dict_get_set_ne.
    - by rewrite attrs_setitem_ne. }
  destruct Hcase as [[Hf ->]|(d & h2 & h3 & Hf & Hmk & Hrc & Haj & Hn)]; simpl.
  - split_and!.
    + intros k Hk _. by apply Ha1.
    + apply string_setitem.
    + left. apply name_setitem.
  - apply find_id_Some in Hf as (Hd & _ & _).
    destruct (mark_pair_spec h1 noteref d Hwf1 Hr1 Hd)
      as (h2' & Hm' & Hwf2 & Hlen2 & _ & _ & _ & Hstr2 & Hname2 & Hattrs2).
    rewrite Hmk in Hm'. injection Hm' as <-.
    assert (Hd2 : is_tag h2 d = true).
    { unfold is_tag. rewrite Hname2, decide_True; [done..|].
      by apply is_tag_in_range. }
    destruct (replace_content_ok h2 d h3 Hwf2 Hd2 Hrc) as (Hwf3 & Hdata3 & _).
    assert (Hd3 : is_tag h3 d = true).
    { rewrite (same_data_is_tag h2 h3); [done..|]. by apply is_tag_in_range. }
    destruct (add_jump_ok _ _ _ _ _ _ Hwf3 Hd3 Haj) as (Hwf4 & Hdata4 & _).
    pose proof (same_data_trans _ _ _ Hdata3 Hdata4) as [Hle D].
    destruct (D m) as (Hnm & Hat & Hst); [lia|].
    rewrite Hnm, Hat, Hst, Hstr2, Hname2, Hattrs2 by lia. cbn zeta.
    split_and!.
    + intros k Hk1 Hk2. repeat case_decide; subst;
        rewrite ?dict_get_set_ne by done; by apply Ha1.
    + apply string_setitem.
    + case_decide; [by right|]. left. apply name_setitem.
Qed.

Lemma process_all_frame need_jump l : ∀ st st',
  wf (soup st) → process_all need_jump l st = Ok st' →
  ∀ m, m < length (soup st) →
    (∀ k, k ≠ lit "id" → k ≠ lit "epub:type" →
          dict_get k (attrs (soup st') m) = dict_get k (attrs (soup st) m))
    ∧ string_value (soup st') m = string_value (soup st) m
    ∧ (name (soup st') m = name (soup st) m
       ∨ name (soup st') m = Some (lit "aside")).
Proof.
  induction l as [|[idx r] l IH]; intros st st' Hwf; simpl.
  - intros [= <-] m Hm. by split_and!; [|done|left].
  - destruct (process_noteref need_jump idx r st) as [st1|] eqn:E; [|done].
    cbn [bind]. intros Hrest m Hm.
    destruct (process_noteref_wf _ _ _ _ _ Hwf E) as (Hwf1 & Hlen1 & _).
    destruct (process_noteref_frame _ _ _ _ _ Hwf E m Hm) as (A1 & S1 & N1).
    destruct (IH st1 st' Hwf1 Hrest m) as (A2 & S2 & N2); [lia|].
    split_and!.
    + intros k Hk1 Hk2. by rewrite A2, A1.
    + by rewrite S2.
    + destruct N2 as [->|N2]; [done|by right].
Qed.


Lemma lit_neq s1 s2 : s1 ≠ s2 → lit s1 ≠ lit s2.
Proof. intros Hne Heq. by apply Hne, lit_inj. Qed.

(** ** Identifiers after the loop *)

Lemma process_all_new_id jump l : ∀ st st',
  wf (soup st) → process_all jump l st = Ok st' →
  (∀ r, r ∈ l.*2 → r < length (soup st)) →
  ∀ m, length (soup st) ≤ m → dict_get (lit "id") (attrs (soup st') m) = None.
Proof.
  induction l as [|[idx r] l IH]; intros st st' Hwf; simpl.
  - intros [= <-] _ m Hm. by rewrite out_of_range_attrs.
  - destruct (process_noteref jump idx r st) as [st1|] eqn:E; [|done].
    cbn [bind]. intros Hrest Hin m Hm.
    destruct (process_noteref_wf _ _ _ _ _ Hwf E) as (Hwf1 & Hlen1 & _).
    pose proof (process_noteref_new _ _ _ _ _ m Hwf E Hm) as Hnew.
    destruct (decide (m < length (soup st1))) as [Hlt|Hge].
    + rewrite (process_all_id_frame jump l m st1 st' Hwf1 Hrest Hlt); [done|].
      intros Hml. assert (m < length (soup st)); [|lia].
      apply Hin. by right.
    + apply (IH st1 st' Hwf1 Hrest); [|lia].
      intros r' Hr'. assert (r' < length (soup st)); [|lia].
      apply Hin. by right.
Qed.

(** After the loop a node has the identifier of its last occurrence
    among the candidates; a node that is no candidate has the
    identifier it had, and a node the loop created has none. *)
Lemma process_all_ids jump l start st st' m :
  wf (soup st) → process_all jump (enumerate l start) st = Ok st' →
  (∀ r, r ∈ l → r < length (soup st)) →
  ((m ∉ l)
   ∧ dict_get (lit "id") (attrs (soup st') m)
     = if decide (m < length (soup st))
       then dict_get (lit "id") (attrs (soup st) m) else None)
  ∨ (∃ k, l !! k = Some m ∧ (m ∉ drop (S k) l)
          ∧ dict_get (lit "id") (attrs (soup st') m)
            = Some (AttrStr (nootref (start + k)))).
Proof.
  intros Hwf Hloop Hin. destruct (decide (m ∈ l)) as [Hm|Hm].
  - right. apply list_elem_of_split_r in Hm as (l1 & l2 & -> & Hl2).
    exists (length l1).
    assert (Hk : (l1 ++ m :: l2) !! length l1 = Some m) by by apply list_lookup_middle.
    assert (Hd : m ∉ drop (S (length l1)) (l1 ++ m :: l2)).
    { replace (l1 ++ m :: l2) with ((l1 ++ [m]) ++ l2) by (by rewrite <- app_assoc).
      rewrite drop_app_length'; [done|]. rewrite length_app. simpl. lia. }
    split; [done|]. split; [done|].
    by apply (process_all_last_id jump (l1 ++ m :: l2) m start st st').
  - left. split; [done|]. case_decide as Hlt.
    + apply (process_all_id_frame jump _ m st st' Hwf Hloop Hlt).
      by rewrite enumerate_snd.
    + apply (process_all_new_id jump _ st st' Hwf Hloop); [|lia].
      rewrite enumerate_snd. apply Hin.
Qed.

(** ** The candidates *)

Lemma descendants_in_range h n : wf h → n ∈ descendants h root → n < length h.
Proof.
  intros Hwf Hn. destruct (descendants_upto_listed _ _ _ _ Hn) as [q Hq].
  eapply parent_in_range. by apply wf_child.
Qed.

Lemma select_each_elem h rules n :
  n ∈ select_each h rules ↔
  ∃ rule, rule ∈ rules ∧ n ∈ descendants h root ∧ matches h rule n = true.
Proof.
  rewrite select_each_flat. induction rules as [|r rules IH]; simpl.
  - split; [by intros ?%elem_of_nil|]. by intros (rule & ?%elem_of_nil & _).
  - rewrite elem_of_app, IH. unfold select at 1. rewrite list_elem_of_filter. split.
    + intros [[Hm Hd]|(rule & Hr & Hd & Hm)].
      * exists r. split; [by left|done].
      * exists rule. split; [by right|done].
    + intros (rule & [->|Hr]%elem_of_cons & Hd & Hm); [by left|].
      right. by exists rule.
Qed.

(** ** The link of lines 103-106 *)

Lemma process_noteref_link idx noteref st note_href note_text st' :
  wf (soup st) →
  getitem (soup st) noteref (lit "href") = Ok (AttrStr note_href) →
  find_id (setitem noteref (lit "id") (AttrStr (nootref idx)) (soup st))
          (fragment note_href) = Some note_text →
  process_noteref true idx noteref st = Ok st' →
  ∃ link, length (soup st) ≤ link ∧ link < length (soup st')
    ∧ name (soup st') link = Some (lit "a")
    ∧ attrs (soup st') link = [(lit "href", AttrStr (hash :: nootref idx))].
Proof.
  intros Hwf Hhref Hfind Hp.
  set (h1 := setitem noteref (lit "id") (AttrStr (nootref idx)) (soup st)) in *.
  pose proof (h1_wf idx noteref st Hwf) as Hwf1. fold h1 in Hwf1.
  pose proof (getitem_is_tag _ _ _ _ Hhref) as Hr.
  assert (Hr1 : is_tag h1 noteref = true).
  { unfold is_tag, h1. rewrite name_setitem. apply Hr. }
  pose proof (find_id_Some _ _ _ Hfind) as (Hd1 & _ & _).
  pose proof (is_tag_in_range _ _ Hr1) as Hrl.
  pose proof (is_tag_in_range _ _ Hd1) as Hdl.
  assert (Hlen1 : length h1 = length (soup st)) by apply length_alter.
  apply process_noteref_inv in Hp as (s & Hs & Hcase).
  rewrite Hhref in Hs. injection Hs as <-. fold h1 in Hcase.
  destruct Hcase as [[Hf _]|(d & h2 & h3 & Hf & Hm & Hrc & Haj & _)];
    [congruence|].
  rewrite Hfind in Hf. injection Hf as <-.
  destruct (mark_pair_spec h1 noteref note_text Hwf1 Hr1 Hd1)
    as (h2' & Hmark & Hwf2 & Hlen2 & _ & _ & _ & _ & Hn2 & Ha2).
  rewrite Hm in Hmark. injection Hmark as <-.
  assert (Hd2 : is_tag h2 note_text = true).
  { unfold is_tag. by rewrite Hn2, decide_True. }
  destruct (replace_content_ok h2 note_text h3 Hwf2 Hd2 Hrc) as (Hwf3 & [Hle3 D3] & _).
  assert (Hd3 : is_tag h3 note_text = true).
  { rewrite (same_data_is_tag h2 h3); [done|by split|lia]. }
  assert (Hid : dict_get (lit "id") (attrs h3 noteref) = Some (AttrStr (nootref idx))).
  { destruct (D3 noteref) as (_ & -> & _); [lia|]. rewrite Ha2 by done. cbn zeta.
    rewrite (decide_True (P := noteref = noteref)) by done.
    destruct (decide (noteref = note_text));
      rewrite ?(dict_get_set_ne _ _ _ _ id_not_epub_type);
      unfold h1; rewrite attrs_setitem_eq by done; apply dict_get_set_eq. }
  pose proof (add_jump_spec h3 idx noteref note_text _ Hwf3 Hd3 Hid) as Hspec.
  destruct (parent h3 note_text) as [q|] eqn:Hq; [|congruence].
  destruct Hspec as (h4 & l1 & l2 & Haj' & Hwf4 & Hlen4 & _ & _ & Hcq & Hnew & Ht & _).
  rewrite Haj in Haj'. injection Haj' as <-.
  exists (length h3). split_and!.
  - lia.
  - rewrite Hlen4. lia.
  - unfold name. by rewrite Hnew.
  - unfold attrs. by rewrite Hnew.
Qed.

(** ** A resolved pair after lines 81-89 and after its iteration *)

Lemma process_noteref_rewritten need_jump idx noteref st note_href note_text :
  wf (soup st) →
  getitem (soup st) noteref (lit "href") = Ok (AttrStr note_href) →
  find_id (setitem noteref (lit "id") (AttrStr (nootref idx)) (soup st))
          (fragment note_href) = Some note_text →
  let marked h :=
    dict_get (lit "id") (attrs h noteref) = Some (AttrStr (nootref idx))
    ∧ dict_get (lit "epub:type") (attrs h noteref)
      = Some (AttrStr (if decide (noteref = note_text)
                       then lit "footnote" else lit "noteref"))
    ∧ name h note_text = Some (lit "aside")
    ∧ dict_get (lit "epub:type") (attrs h note_text) = Some (AttrStr (lit "footnote")) in
  let glyph h := ∃ t, contents h noteref = [t] ∧ string_value h t = Some marker in
  (∃ h, mark_pair noteref note_text
          (setitem noteref (lit "id") (AttrStr (nootref idx)) (soup st)) = Ok h
        ∧ marked h ∧ glyph h)
  ∧ (∀ st', process_noteref need_jump idx noteref st = Ok st' →
            marked (soup st') ∧ processed_notes st' = S (processed_notes st)
            ∧ (noteref ≠ note_text → glyph (soup st'))).
Proof.
  intros Hwf Hhref Hfind marked glyph.
  set (h1 := setitem noteref (lit "id") (AttrStr (nootref idx)) (soup st)) in *.
  pose proof (h1_wf idx noteref st Hwf) as Hwf1. fold h1 in Hwf1.
  pose proof (getitem_is_tag _ _ _ _ Hhref) as Hr.
  assert (Hr1 : is_tag h1 noteref = true).
  { unfold is_tag, h1. rewrite name_setitem. apply Hr. }
  pose proof (find_id_Some _ _ _ Hfind) as (Hd1 & _ & _).
  pose proof (is_tag_in_range _ _ Hr1) as Hrl.
  pose proof (is_tag_in_range _ _ Hd1) as Hdl.
  destruct (mark_pair_spec h1 noteref note_text Hwf1 Hr1 Hd1)
    as (h2 & Hmark & Hwf2 & Hlen2 & _ & Hc2 & Hs2 & _ & Hn2 & Ha2).
  assert (Hid1 : dict_get (lit "id") (attrs h1 noteref) = Some (AttrStr (nootref idx))).
  { unfold h1. rewrite attrs_setitem_eq by done. apply dict_get_set_eq. }
  assert (Hrw2 : marked h2).
  { unfold marked. rewrite !Ha2, !Hn2 by done. cbn zeta.
    rewrite !(decide_True (P := noteref = noteref)) by done.
    rewrite !(decide_True (P := note_text = note_text)) by done.
    destruct (decide (noteref = note_text)) as [<-|Hne].
    - rewrite !(decide_True (P := noteref = noteref)) by done.
      split_and!; [|apply dict_get_set_eq|done|apply dict_get_set_eq].
      by rewrite !dict_get_set_ne by apply id_not_epub_type.
    - rewrite !(decide_False (P := note_text = noteref)) by done.
      split_and!; [|apply dict_get_set_eq|done|apply dict_get_set_eq].
      by rewrite dict_get_set_ne by apply id_not_epub_type. }
  assert (Hg2 : glyph h2).
  { exists (length h1). by rewrite Hc2, decide_True. }
  split; [by exists h2|].
  intros st' Hp. apply process_noteref_inv in Hp as (s & Hs & Hcase).
  rewrite Hhref in Hs. injection Hs as <-. fold h1 in Hcase.
  destruct Hcase as [[Hf _]|(d & h2' & h3 & Hf & Hm & Hrc & Haj & Hn)];
    [congruence|].
  rewrite Hfind in Hf. injection Hf as <-. rewrite Hmark in Hm. injection Hm as <-.
  assert (Hd2 : is_tag h2 note_text = true).
  { unfold is_tag. by rewrite Hn2, decide_True. }
  destruct (replace_content_ok h2 note_text h3 Hwf2 Hd2 Hrc) as (Hwf3 & Hdata3 & Hc3).
  assert (Hd3 : is_tag h3 note_text = true).
  { rewrite (same_data_is_tag h2 h3); [done..|lia]. }
  destruct (add_jump_ok _ _ _ _ _ _ Hwf3 Hd3 Haj) as (Hwf4 & Hdata4 & Hc4 & _).
  pose proof (same_data_trans _ _ _ Hdata3 Hdata4) as [Hle D].
  destruct Hrw2 as (R1 & R2 & R4 & R5).
  destruct (D noteref) as (_ & Har & _); [lia|].
  destruct (D note_text) as (Hnd & Had & _); [lia|].
  destruct (D (length h1)) as (_ & _ & Hst); [lia|].
  split; [|split; [done|]].
  { unfold marked. by rewrite Har, Had, Hnd. }
  intros Hne.
  assert (Hcr2 : contents h2 noteref = [length h1]).
  { by rewrite Hc2, decide_True. }
  assert (Hcr3 : contents h3 noteref = [length h1]).
  { rewrite Hc3; [done|done| |].
    - rewrite Hcr2. intros ->%list_elem_of_singleton. lia.
    - intros c. rewrite Hcr2. intros ->%list_elem_of_singleton.
      by rewrite (string_value_not_tag _ _ _ Hs2). }
  assert (Hcr4 : contents (soup st') noteref = [length h1]).
  { rewrite Hc4; [done| |].
    - destruct Hdata3 as [Hle3 _]. lia.
    - rewrite Hcr3. intros ->%list_elem_of_singleton. lia. }
  exists (length h1). by rewrite Hst.
Qed.

Lemma twice_inv {A} (x : A) l1 l2 l3 :
  [x; x] = l1 ++ x :: l2 ++ x :: l3 → l1 = [] ∧ l2 = [] ∧ l3 = [].
Proof.
  intros H. destruct l1 as [|a l1]; simplify_eq/=.
  - destruct l2 as [|c l2]; simplify_eq/=; [done|]. by destruct l2.
  - destruct l1 as [|b l1]; simplify_eq/=.
    + by destruct l2.
    + by destruct l1.
Qed.

(** ** The example documents are well formed *)

Lemma popup_wf : wf popup.
Proof. apply wfb_wf. by vm_compute. Defined.

Lemma note_list_wf : wf note_list.
Proof. apply wfb_wf. by vm_compute. Defined.

Lemma shared_paragraph_wf : wf shared_paragraph.
Proof. apply wfb_wf. by vm_compute. Defined.

Lemma padded_wf : wf padded.
Proof. apply wfb_wf. by vm_compute. Defined.

Lemma nested_paragraph_wf : wf nested_paragraph.
Proof. apply wfb_wf. by vm_compute. Defined.

Lemma self_reference_wf : wf self_reference.
Proof. apply wfb_wf. by vm_compute. Defined.

Lemma shared_refs_wf : wf shared_refs.
Proof. apply wfb_wf. by vm_compute. Defined.

(** * The claims *)

(** C1, as the code has it: for a definition whose nearest [p]
    ancestor (the first [p] among its ancestors, on the way up) still
    has a parent, lines 92-100 replace the definition's content by one
    string: the strings that are direct children of that ancestor,
    concatenated as they are, without the white space at the two ends.
    The concatenation is a run of white space, the new string and a run
    of white space, and the new string neither begins nor ends with
    white space.  The definition then stands where the ancestor stood
    among its siblings, and the ancestor is out of the tree.  Without a
    [p] ancestor the document is left as it is. *)
Theorem C1_replace_content h note_text :
  wf h → is_tag h note_text = true →
  (find_parent h note_text (lit "p") = None →
   replace_content note_text h = Ok h)
  ∧ (∀ parent_p q,
       find_parent h note_text (lit "p") = Some parent_p →
       parent h parent_p = Some q →
       (∃ nearer further,
          parents h note_text = nearer ++ parent_p :: further
          ∧ name h parent_p = Some (lit "p")
          ∧ Forall (λ a, name h a ≠ Some (lit "p")) nearer
          ∧ ∀ a, a ∈ parents h note_text ↔ below h a note_text)
       ∧ ∃ h' l1 l2 t text pre suf,
           replace_content note_text h = Ok h'
           ∧ contents h' note_text = [t]
           ∧ string_value h' t = Some text
           ∧ text = strip (join (omap (string_value h) (contents h parent_p)))
           ∧ join (omap (string_value h) (contents h parent_p)) = pre ++ text ++ suf
           ∧ Forall (λ c, isspace c = true) pre
           ∧ Forall (λ c, isspace c = true) suf
           ∧ (∀ c, head text = Some c → isspace c = false)
           ∧ (∀ c, last text = Some c → isspace c = false)
           ∧ contents h q = l1 ++ parent_p :: l2
           ∧ contents h' q = l1 ++ note_text :: l2
           ∧ parent h' note_text = Some q
           ∧ parent h' parent_p = None
           ∧ (∀ m, parent_p ∉ contents h' m)
           ∧ (parent_p ∉ descendants h' root)).
Proof.
  intros Hwf Htag. pose proof (replace_content_spec h note_text Hwf Htag) as Hs.
  split.
  - intros Hnone. by rewrite Hnone in Hs.
  - intros p q Hfp Hq. rewrite Hfp, Hq in Hs. split.
    + unfold find_parent in Hfp. apply head_filter_Some in Hfp
        as (l1 & l2 & Hl & Hp & Hall).
      exists l1, l2. split_and!; [done| | |].
      * unfold has_name in Hp. by apply bool_decide_eq_true in Hp.
      * eapply Forall_impl; [apply Hall|]. intros a Ha Hn. apply Ha.
        unfold has_name. by apply bool_decide_eq_true.
      * intros a. by apply parents_below.
    + destruct Hs as (h' & l1 & l2 & Hr & _ & _ & _ & Hcq & Hcq' & Hcd & Hsv
                      & Hpd & Hpp & Hgone & _).
      destruct (strip_spec (join (omap (string_value h) (contents h p))))
        as (pre & suf & Hsplit & Hpre & Hsuf & Hhd & Hlast).
      exists h', l1, l2, (length h),
        (strip (join (omap (string_value h) (contents h p)))), pre, suf.
      split_and!; try done.
      intros Hin. unfold descendants in Hin.
      destruct (descendants_upto_listed _ _ _ _ Hin) as [m Hm].
      by apply (Hgone m).
Qed.

Lemma C1_witness :
  ∃ h' l1 l2 t text pre suf,
    replace_content 10 padded = Ok h'
    ∧ contents h' 10 = [t]
    ∧ string_value h' t = Some text
    ∧ text = lit "Some  remark"
    ∧ lit "  Some  remark " ++ [10%N] = pre ++ text ++ suf
    ∧ Forall (λ c, isspace c = true) pre
    ∧ Forall (λ c, isspace c = true) suf
    ∧ (∀ c, head text = Some c → isspace c = false)
    ∧ (∀ c, last text = Some c → isspace c = false)
    ∧ contents padded 2 = l1 ++ 5 :: l2
    ∧ contents h' 2 = l1 ++ 10 :: l2
    ∧ parent h' 10 = Some 2
    ∧ parent h' 5 = None
    ∧ (∀ m, 5 ∉ contents h' m)
    ∧ (5 ∉ descendants h' root).
Proof.
  destruct (C1_replace_content padded 10 padded_wf eq_refl) as [_ H].
  destruct (H 5 2 eq_refl eq_refl) as [_ H']. exact H'.
Defined.

(** C1 as stated fails.  In [popup], the example the claim is taken
    from, the note's content is ["Some  remark"], with the two spaces
    that stood on either side of the [i] element, not ["Some remark"].
    In [nested_paragraph] the pair is resolved and the definition has a
    [p] ancestor in the tree, but line 87 has detached that paragraph
    with the old content of the reference: line 99 raises [ValueError],
    and nothing is moved or removed. *)
Lemma C1_counterexample :
  (∃ h' t,
     replace_content 10 popup = Ok h' ∧ contents h' 10 = [t]
     ∧ string_value h' t = Some (lit "Some  remark")
     ∧ lit "Some  remark" ≠ lit "Some remark")
  ∧ getitem nested_paragraph 3 (lit "href") = Ok (AttrStr (lit "#d"))
  ∧ find_id (setitem 3 (lit "id") (AttrStr (nootref 1)) nested_paragraph)
            (fragment (lit "#d")) = Some 6
  ∧ find_parent nested_paragraph 6 (lit "p") = Some 4
  ∧ parent nested_paragraph 4 = Some 3
  ∧ (4 ∈ descendants nested_paragraph root)
  ∧ process_noteref false 1 3 (State nested_paragraph 0) = Raise ValueError
  ∧ create_popup_footnotes (λ _, nested_paragraph) render false true []
    = Raise ValueError.
Proof.
  split.
  { eexists _, _. split; [by vm_compute|]. split; [done|]. split; [done|].
    intros H. vm_compute in H. discriminate. }
  split_and!; try by vm_compute.
  apply (bool_decide_eq_true_1 _). by vm_compute.
Qed.

(** C2, as the code has it: for a reference whose fragment finds no
    node, the iteration still writes the generated identifier onto the
    reference (line 81 runs before the lookup); it changes nothing else
    - no other attribute of the reference, no other node, no text, no
    link of the tree - and it does not count the reference. *)
Theorem C2_unresolved_only_id need_jump idx noteref st note_href :
  getitem (soup st) noteref (lit "href") = Ok (AttrStr note_href) →
  find_id (setitem noteref (lit "id") (AttrStr (nootref idx)) (soup st))
          (fragment note_href) = None →
  ∃ st',
    process_noteref need_jump idx noteref st = Ok st'
    ∧ processed_notes st' = processed_notes st
    ∧ length (soup st') = length (soup st)
    ∧ (∀ m, parent (soup st') m = parent (soup st) m
            ∧ contents (soup st') m = contents (soup st) m
            ∧ name (soup st') m = name (soup st) m
            ∧ string_value (soup st') m = string_value (soup st) m)
    ∧ (∀ m, m ≠ noteref → attrs (soup st') m = attrs (soup st) m)
    ∧ attrs (soup st') noteref
      = dict_set (lit "id") (AttrStr (nootref idx)) (attrs (soup st) noteref)
    ∧ (∀ k, k ≠ lit "id" →
            dict_get k (attrs (soup st') noteref)
            = dict_get k (attrs (soup st) noteref)).
Proof.
  intros Hhref Hnone. eexists. split; [by eapply process_noteref_unresolved|].
  pose proof (getitem_is_tag _ _ _ _ Hhref) as Htag. simpl.
  assert (Ha : attrs (setitem noteref (lit "id") (AttrStr (nootref idx)) (soup st)) noteref
               = dict_set (lit "id") (AttrStr (nootref idx)) (attrs (soup st) noteref))
    by (by apply attrs_setitem_eq).
  split_and!.
  - done.
  - apply length_alter.
  - intros m. by rewrite parent_setitem, contents_setitem, name_setitem, string_setitem.
  - intros m Hm. by apply attrs_setitem_ne.
  - done.
  - intros k Hk. rewrite Ha. by apply dict_get_set_ne.
Qed.

Lemma C2_witness :
  ∃ st',
    process_noteref false 1 3 (State dangling 0) = Ok st'
    ∧ processed_notes st' = 0
    ∧ length (soup st') = length dangling
    ∧ (∀ m, parent (soup st') m = parent dangling m
            ∧ contents (soup st') m = contents dangling m
            ∧ name (soup st') m = name dangling m
            ∧ string_value (soup st') m = string_value dangling m)
    ∧ (∀ m, m ≠ 3 → attrs (soup st') m = attrs dangling m)
    ∧ attrs (soup st') 3
      = dict_set (lit "id") (AttrStr (nootref 1)) (attrs dangling 3)
    ∧ (∀ k, k ≠ lit "id" →
            dict_get k (attrs (soup st') 3) = dict_get k (attrs dangling 3)).
Proof.
  exact (C2_unresolved_only_id false 1 3 (State dangling 0) (lit "#missing")
           eq_refl eq_refl).
Defined.

(** C2 as stated fails: the reference of [dangling] points at no node,
    yet after its iteration it carries the identifier [nootref1]. *)
Lemma C2_counterexample :
  find_id dangling (fragment (lit "#missing")) = None
  ∧ ∃ st',
      process_noteref false 1 3 (State dangling 0) = Ok st'
      ∧ processed_notes st' = 0
      ∧ dict_get (lit "id") (attrs dangling 3) = None
      ∧ dict_get (lit "id") (attrs (soup st') 3) = Some (AttrStr (lit "nootref1"))
      ∧ attrs (soup st') 3 ≠ attrs dangling 3.
Proof.
  split; [done|]. eexists. split; [by vm_compute|].
  split_and!; try done; intros H; vm_compute in H; discriminate.
Qed.

(** C3, as the code has it: an iteration that completes gives the
    generated identifier to its own reference and changes the
    identifier of no other node; the nodes it creates carry none.
    Lookups scan the tree as the iterations so far have left it.  For
    an identifier other than the generated one, that the reference did
    not carry: a lookup that found nothing before the iteration finds
    nothing after it; a lookup that found a node finds that node again
    if the node is still in the tree; and a lookup after the iteration
    never finds a node that did not carry the identifier in the tree
    before.  When the reference does not resolve, the tree is as it was
    and such a lookup finds what it found before. *)
Theorem C3_later_lookups need_jump idx noteref st st' :
  wf (soup st) → process_noteref need_jump idx noteref st = Ok st' →
  dict_get (lit "id") (attrs (soup st') noteref) = Some (AttrStr (nootref idx))
  ∧ (∀ m, m ≠ noteref →
          dict_get (lit "id") (attrs (soup st') m)
          = dict_get (lit "id") (attrs (soup st) m))
  ∧ (∀ x, x ≠ nootref idx →
          attr_matches (soup st) (lit "id") x noteref = false →
          (find_id (soup st) x = None → find_id (soup st') x = None)
          ∧ (∀ n, find_id (soup st) x = Some n →
                  n ∈ descendants (soup st') root →
                  find_id (soup st') x = Some n)
          ∧ (∀ n, find_id (soup st') x = Some n →
                  n ∈ descendants (soup st) root
                  ∧ is_tag (soup st) n && attr_matches (soup st) (lit "id") x n = true))
  ∧ (¬ resolves (soup st) idx noteref →
     (∀ m, contents (soup st') m = contents (soup st) m)
     ∧ ∀ x, x ≠ nootref idx →
            attr_matches (soup st) (lit "id") x noteref = false →
            find_id (soup st') x = find_id (soup st) x).
Proof.
  intros Hwf Hp.
  destruct (process_noteref_wf _ _ _ _ _ Hwf Hp) as (_ & _ & Hid & Hframe).
  assert (Hids : ∀ m, m ≠ noteref →
            dict_get (lit "id") (attrs (soup st') m)
            = dict_get (lit "id") (attrs (soup st) m)).
  { intros m Hm. destruct (decide (m < length (soup st))) as [Hlt|Hge].
    - by apply Hframe.
    - rewrite (process_noteref_new _ _ _ _ _ m Hwf Hp) by lia.
      by rewrite out_of_range_attrs by lia. }
  split; [done|]. split; [done|]. split.
  - intros x Hx Hrx.
    set (P0 := λ n, is_tag (soup st) n && attr_matches (soup st) (lit "id") x n = true).
    set (P4 := λ n, is_tag (soup st') n && attr_matches (soup st') (lit "id") x n = true).
    assert (Hr4 : ¬ P4 noteref).
    { unfold P4, attr_matches. rewrite Hid. simpl.
      rewrite (bool_decide_eq_false_2 (nootref idx = x)) by done.
      by rewrite andb_false_r. }
    assert (Hr0 : ¬ P0 noteref).
    { unfold P0. rewrite Hrx. by rewrite andb_false_r. }
    assert (Hnew : ∀ n, P4 n → n < length (soup st)).
    { intros n Hn. destruct (decide (n < length (soup st))) as [|Hge]; [done|].
      unfold P4, attr_matches in Hn.
      rewrite (process_noteref_new _ _ _ _ _ n Hwf Hp) in Hn by lia.
      by rewrite andb_false_r in Hn. }
    assert (Hiff : ∀ n, n < length (soup st) → P4 n ↔ P0 n).
    { intros n Hn. destruct (decide (n = noteref)) as [->|Hne]; [tauto|].
      unfold P4, P0, attr_matches.
      by rewrite Hids, (process_noteref_is_tag _ _ _ _ _ n Hwf Hp) by done. }
    assert (Hsub : filter P4 (descendants (soup st') root)
                   `sublist_of` filter P0 (descendants (soup st) root)).
    { rewrite <- (filter_olds P4 (length (soup st))) by done.
      rewrite (filter_ext_in P4 P0).
      - apply filter_sublist. by eapply process_noteref_order.
      - intros n Hn. apply Hiff. unfold olds in Hn.
        by apply list_elem_of_filter in Hn as [? _]. }
    fold P0 P4. unfold find_id. fold P0 P4. split_and!.
    + rewrite !head_None. intros H0. rewrite H0 in Hsub.
      by apply sublist_nil_r in Hsub.
    + intros n Hn Hin.
      pose proof (head_Some_elem_of _ _ Hn) as [HP0 Hn0]%list_elem_of_filter.
      apply head_Some in Hn as [rest Hrest]. rewrite Hrest in Hsub.
      apply (head_sublist _ rest); [done| |].
      * apply list_elem_of_filter. split; [|done].
        apply Hiff; [|done]. unfold descendants in Hn0.
        destruct (descendants_upto_listed _ _ _ _ Hn0) as [q Hq].
        by eapply wf_child_old.
      * assert (Hnd : NoDup (n :: rest)).
        { rewrite <- Hrest. apply NoDup_filter.
          by apply descendants_upto_NoDup. }
        by apply NoDup_cons in Hnd as [? _].
    + intros n Hn%head_Some_elem_of.
      pose proof (elem_of_sublist _ _ _ Hn Hsub) as [? ?]%list_elem_of_filter.
      done.
  - intros Hnr. apply process_noteref_inv in Hp as (s & Hhref & Hcase).
    cbv zeta in Hcase.
    destruct Hcase as [[Hf ->]|(d & h2 & h3 & Hf & _)];
      [|destruct Hnr; by exists s, d].
    simpl. split; [intros m; apply contents_setitem|].
    intros x Hx Hrx. unfold find_id, descendants.
    rewrite length_setitem.
    rewrite (descendants_upto_ext (soup st)) by (intros m; apply contents_setitem).
    f_equal. apply list_filter_iff. intros n.
    unfold is_tag. rewrite name_setitem.
    destruct (decide (n = noteref)) as [->|Hn].
    + unfold attr_matches in *. rewrite attrs_setitem_eq
        by (by eapply getitem_is_tag).
      rewrite dict_get_set_eq. simpl.
      rewrite (bool_decide_eq_false_2 (nootref idx = x)) by done.
      destruct (dict_get (lit "id") (attrs (soup st) noteref)); [|done].
      by rewrite Hrx.
    + unfold attr_matches. by rewrite attrs_setitem_ne.
Qed.

Lemma C3_witness :
  ∃ st',
    process_noteref false 1 3 (State shared_paragraph 0) = Ok st'
    ∧ dict_get (lit "id") (attrs (soup st') 3) = Some (AttrStr (nootref 1))
    ∧ (∀ m, m ≠ 3 →
            dict_get (lit "id") (attrs (soup st') m)
            = dict_get (lit "id") (attrs shared_paragraph m))
    ∧ find_id shared_paragraph (lit "Z1") = Some 9
    ∧ find_id (soup st') (lit "Z1") = Some 9.
Proof.
  destruct (process_noteref false 1 3 (State shared_paragraph 0))
    as [st'|] eqn:Hp; [|by vm_compute in Hp].
  destruct (C3_later_lookups false 1 3 (State shared_paragraph 0) st'
              shared_paragraph_wf Hp) as (H1 & H2 & H3 & _).
  exists st'. split; [done|]. split; [done|]. split; [done|]. split; [done|].
  destruct (H3 (lit "Z1")) as (_ & Hsame & _).
  - intros H. vm_compute in H. discriminate.
  - done.
  - apply (Hsame 9); [done|]. vm_compute in Hp. injection Hp as <-.
    apply (bool_decide_eq_true_1 _). by vm_compute.
Defined.

(** C3 as stated fails: in [shared_paragraph] the second reference
    points at [Z2], node 11 of the document as parsed.  Rewriting the
    first pair removes the paragraph that holds both definitions, so
    the lookup for the second reference finds nothing and only one of
    the two pairs is rewritten. *)
Lemma C3_counterexample :
  find_footrefs true shared_paragraph = Ok [3; 5]
  ∧ find_id shared_paragraph (fragment (lit "#Z2")) = Some 11
  ∧ ∃ st1 st2,
      process_noteref false 1 3 (State shared_paragraph 0) = Ok st1
      ∧ find_id (soup st1) (fragment (lit "#Z2")) = None
      ∧ find_id (setitem 5 (lit "id") (AttrStr (nootref 2)) (soup st1))
                (fragment (lit "#Z2")) = None
      ∧ process_noteref false 2 5 st1 = Ok st2
      ∧ processed_notes st2 = 1.
Proof.
  split; [by vm_compute|]. split; [by vm_compute|].
  eexists _, _. split; [by vm_compute|]. split; [by vm_compute|].
  split; [by vm_compute|]. split; by vm_compute.
Qed.

(** C4, as the code has it: with the jump-back option on, an iteration
    that completes for a resolved pair has put a new [a] tag
    immediately before the definition among the children of the
    definition's parent - its sibling, not its child; the tag's [href]
    is ['#'] followed by the reference's generated identifier, and its
    only content is the string ["[idx]"].  With the option off, lines
    103-106 change nothing. *)
Theorem C4_jump_back idx noteref st note_href note_text :
  wf (soup st) →
  getitem (soup st) noteref (lit "href") = Ok (AttrStr note_href) →
  find_id (setitem noteref (lit "id") (AttrStr (nootref idx)) (soup st))
          (fragment note_href) = Some note_text →
  (∀ st', process_noteref true idx noteref st = Ok st' →
     ∃ q l1 l2 new t,
       contents (soup st') q = l1 ++ new :: note_text :: l2
       ∧ length (soup st) ≤ new
       ∧ soup st' !! new
         = Some (Tag (Some q) (lit "a")
                   [(lit "href", AttrStr (hash :: lit "nootref" ++ str_of_nat idx))] [t])
       ∧ soup st' !! t
         = Some (NavigableString (Some new) (lit "[" ++ str_of_nat idx ++ lit "]"))
       ∧ (new ∉ contents (soup st') note_text))
  ∧ (∀ h, add_jump false idx noteref note_text h = Ok h)
  ∧ (∀ st', process_noteref false idx noteref st = Ok st' →
       ∃ h2, mark_pair noteref note_text
               (setitem noteref (lit "id") (AttrStr (nootref idx)) (soup st)) = Ok h2
             ∧ replace_content note_text h2 = Ok (soup st')).
Proof.
  intros Hwf Hhref Hfind.
  set (h1 := setitem noteref (lit "id") (AttrStr (nootref idx)) (soup st)) in *.
  pose proof (h1_wf idx noteref st Hwf) as Hwf1. fold h1 in Hwf1.
  pose proof (getitem_is_tag _ _ _ _ Hhref) as Hr.
  assert (Hr1 : is_tag h1 noteref = true).
  { unfold is_tag, h1. rewrite name_setitem. apply Hr. }
  pose proof (find_id_Some _ _ _ Hfind) as (Hd1 & _ & _).
  pose proof (is_tag_in_range _ _ Hr1) as Hrl.
  pose proof (is_tag_in_range _ _ Hd1) as Hdl.
  assert (Hlen1 : length h1 = length (soup st)) by apply length_alter.
  assert (Hinv : ∀ jump st', process_noteref jump idx noteref st = Ok st' →
            ∃ h2 h3, mark_pair noteref note_text h1 = Ok h2
                     ∧ replace_content note_text h2 = Ok h3
                     ∧ add_jump jump idx noteref note_text h3 = Ok (soup st')).
  { intros jump st' Hp. apply process_noteref_inv in Hp as (s & Hs & Hcase).
    rewrite Hhref in Hs. injection Hs as <-. fold h1 in Hcase.
    destruct Hcase as [[Hf _]|(d & h2 & h3 & Hf & Hm & Hrc & Haj & _)];
      [congruence|].
    rewrite Hfind in Hf. injection Hf as <-. by exists h2, h3. }
  split_and!.
  - intros st' Hp. destruct (Hinv _ _ Hp) as (h2 & h3 & Hm & Hrc & Haj).
    destruct (mark_pair_spec h1 noteref note_text Hwf1 Hr1 Hd1)
      as (h2' & Hmark & Hwf2 & Hlen2 & _ & _ & _ & _ & Hn2 & Ha2).
    rewrite Hm in Hmark. injection Hmark as <-.
    assert (Hd2 : is_tag h2 note_text = true).
    { unfold is_tag. by rewrite Hn2, decide_True. }
    destruct (replace_content_ok h2 note_text h3 Hwf2 Hd2 Hrc) as (Hwf3 & [Hle3 D3] & _).
    assert (Hd3 : is_tag h3 note_text = true).
    { rewrite (same_data_is_tag h2 h3); [done|by split|lia]. }
    assert (Hid : dict_get (lit "id") (attrs h3 noteref) = Some (AttrStr (nootref idx))).
    { destruct (D3 noteref) as (_ & -> & _); [lia|]. rewrite Ha2 by done. cbn zeta.
      rewrite (decide_True (P := noteref = noteref)) by done.
      destruct (decide (noteref = note_text));
        rewrite ?(dict_get_set_ne _ _ _ _ id_not_epub_type);
        unfold h1; rewrite attrs_setitem_eq by done; apply dict_get_set_eq. }
    pose proof (add_jump_spec h3 idx noteref note_text _ Hwf3 Hd3 Hid) as Hspec.
    destruct (parent h3 note_text) as [q|] eqn:Hq; [|congruence].
    destruct Hspec as (h4 & l1 & l2 & Haj' & Hwf4 & _ & _ & _ & Hcq & Hnew & Ht & _).
    rewrite Haj in Haj'. injection Haj' as <-.
    exists q, l1, l2, (length h3), (S (length h3)). split_and!; try done.
    + lia.
    + intros Hin. apply (wf_child _ _ _ Hwf4) in Hin.
      unfold parent in Hin. rewrite Hnew in Hin. simpl in Hin.
      injection Hin as ->. pose proof (wf_parent_lt _ _ _ Hwf3 Hq). lia.
  - intros h. apply add_jump_off.
  - intros st' Hp. destruct (Hinv _ _ Hp) as (h2 & h3 & Hm & Hrc & Haj).
    rewrite add_jump_off in Haj. injection Haj as <-. by exists h2.
Qed.

Lemma C4_witness :
  ∃ st' q l1 l2 new t,
    process_noteref true 1 3 (State popup 0) = Ok st'
    ∧ contents (soup st') q = l1 ++ new :: 10 :: l2
    ∧ soup st' !! new
      = Some (Tag (Some q) (lit "a") [(lit "href", AttrStr (lit "#nootref1"))] [t])
    ∧ soup st' !! t = Some (NavigableString (Some new) (lit "[1]"))
    ∧ (new ∉ contents (soup st') 10).
Proof.
  destruct (C4_jump_back 1 3 (State popup 0) (lit "#Z1") 10 popup_wf eq_refl eq_refl)
    as [H _].
  eexists. match goal with |- context [Ok ?s] => destruct (H s) as
    (q & l1 & l2 & new & t & H1 & _ & H3 & H4 & H5) end; [by vm_compute|].
  exists q, l1, l2, new, t. split_and!; try done; by vm_compute.
Defined.

(** C4 as stated fails: after the iteration for the reference of
    [popup] with the option on, the definition's only child is the
    string of the replaced content; the link is node 14, the sibling
    before the definition under [body]. *)
Lemma C4_counterexample :
  ∃ st',
    process_noteref true 1 3 (State popup 0) = Ok st'
    ∧ contents (soup st') 10 = [13]
    ∧ soup st' !! 13 = Some (NavigableString (Some 10) (lit "Some  remark"))
    ∧ contents (soup st') 2 = [3; 14; 10]
    ∧ soup st' !! 14
      = Some (Tag (Some 2) (lit "a") [(lit "href", AttrStr (lit "#nootref1"))] [15])
    ∧ soup st' !! 15 = Some (NavigableString (Some 14) (lit "[1]"))
    ∧ head (contents (soup st') 10) ≠ Some 14.
Proof. eexists. split; [by vm_compute|]. by split_and!. Qed.

(** C5, as the code has it: in automatic mode, when no rule selects
    anything, the call returns the very markup it was given (line 71
    returns [html_content], not the serialized tree), prints that no
    footnotes were found, and runs neither the loop nor the sweep.  The
    namespace declaration of line 60 went onto the parsed tree only. *)
Theorem C5_no_candidates BeautifulSoup str_soup need_jump html_content h :
  add_namespace (BeautifulSoup html_content) = Ok h →
  select_each h foot_ref_tags_selectors = [] →
  create_popup_footnotes BeautifulSoup str_soup need_jump true html_content
  = Ok (Outcome html_content [lit "No footnotes found in the document."]).
Proof.
  intros Hns Hsel. unfold create_popup_footnotes, find_footrefs.
  rewrite Hns. cbn [bind]. by rewrite Hsel.
Qed.

Lemma C5_witness :
  create_popup_footnotes (λ _, plain) render false true plain_markup
  = Ok (Outcome plain_markup [lit "No footnotes found in the document."]).
Proof.
  exact (C5_no_candidates (λ _, plain) render false plain_markup _ eq_refl eq_refl).
Defined.

(** C5 as stated fails: [plain_markup] has no reference and no
    namespace declaration.  The tree gets the declaration, and its
    serialization differs from the markup; the call returns the markup,
    without the declaration. *)
Lemma C5_counterexample :
  render plain = plain_markup
  ∧ dict_mem (lit "xmlns:epub") (attrs plain 1) = false
  ∧ ∃ h,
      add_namespace plain = Ok h
      ∧ dict_mem (lit "xmlns:epub") (attrs h 1) = true
      ∧ find_footrefs true h = Ok []
      ∧ returned <$> (match create_popup_footnotes (λ _, plain) render false true
                              plain_markup with
                      | Ok out => Some out
                      | Raise _ => None
                      end) = Some plain_markup
      ∧ render h ≠ plain_markup.
Proof.
  split; [by vm_compute|]. split; [done|]. eexists. split; [by vm_compute|].
  split_and!; try done; intros H; vm_compute in H; discriminate.
Qed.

(** C6: in automatic mode the candidates are the matches of the
    built-in rules, rule after rule in the order of the list, each
    rule's matches in document order; a node of the tree occurs once
    for every rule that matches it; the candidates are numbered from 1
    to their number, and the occurrence at position [length l1] is
    processed on its own with the index [length l1 + 1]. *)
Theorem C6_candidates need_jump h :
  wf h →
  let footrefs := concat (select h <$> foot_ref_tags_selectors) in
  find_footrefs true h = Ok footrefs
  ∧ (∀ rule,
       select h rule = filter (λ n, matches h rule n = true) (descendants h root))
  ∧ (∀ n,
       occurrences n footrefs
       = if decide (n ∈ descendants h root)
         then length (filter (λ rule, matches h rule n = true) foot_ref_tags_selectors)
         else 0)
  ∧ (enumerate footrefs 1).*1 = seq 1 (length footrefs)
  ∧ (enumerate footrefs 1).*2 = footrefs
  ∧ (∀ l1 n l2 st,
       process_all need_jump (enumerate (l1 ++ n :: l2) 1) st =
         let* st := process_all need_jump (enumerate l1 1) st in
         let* st := process_noteref need_jump (S (length l1)) n st in
         process_all need_jump (enumerate l2 (S (S (length l1)))) st)
  ∧ (∀ BeautifulSoup str_soup html_content,
       create_popup_footnotes BeautifulSoup str_soup need_jump true html_content =
         let* h := add_namespace (BeautifulSoup html_content) in
         match concat (select h <$> foot_ref_tags_selectors) with
         | [] => Ok (Outcome html_content [lit "No footnotes found in the document."])
         | c :: cs =>
             let* st := process_all need_jump (enumerate (c :: cs) 1) (State h 0) in
             let* h' := remove_notes (soup st) in
             Ok (Outcome (str_soup h')
                   [ lit "Found " ++ str_of_nat (length (c :: cs))
                       ++ lit " footnotes in the document.";
                     lit "Processed " ++ str_of_nat (processed_notes st)
                       ++ lit " footnotes." ])
         end).
Proof.
  intros Hwf footrefs. split_and!.
  - unfold find_footrefs. by rewrite select_each_flat.
  - done.
  - intros n. unfold footrefs. rewrite occurrences_concat, <- list_fmap_compose.
    rewrite <- (sum_matching (λ rule, matches h rule n = true)).
    f_equal. apply list_fmap_ext. intros _ rule _. simpl.
    by apply occurrences_select.
  - apply enumerate_fst.
  - apply enumerate_snd.
  - intros l1 n l2 st. apply (process_all_at need_jump l1 n l2 1).
  - intros BS str_soup html. unfold create_popup_footnotes, find_footrefs.
    destruct (add_namespace (BS html)) as [h0|]; [|done]. cbn [bind].
    rewrite select_each_flat.
    by destruct (concat (select h0 <$> foot_ref_tags_selectors)).
Qed.

Lemma C6_witness :
  find_footrefs true popup = Ok [3; 3]
  ∧ occurrences 3 (concat (select popup <$> foot_ref_tags_selectors)) = 2
  ∧ (enumerate (concat (select popup <$> foot_ref_tags_selectors)) 1).*1 = [1; 2].
Proof.
  destruct (C6_candidates false popup popup_wf) as (H1 & _ & H3 & H4 & _).
  split; [exact H1|]. split; [exact (H3 3)|exact H4].
Defined.

(** C7: the fragment identifier of a reference is what follows the
    last ['#'] of its [href] (it holds no ['#'], and the [href] is a
    prefix, a ['#'] and the fragment; an [href] without ['#'] is its own
    fragment).  The definition is the first tag, in document order
    among all descendants of the document root, whose [id] equals the
    fragment; on a well-formed document these descendants are all the
    nodes of the tree. *)
Theorem C7_resolution need_jump idx noteref st note_href :
  getitem (soup st) noteref (lit "href") = Ok (AttrStr note_href) →
  let h := setitem noteref (lit "id") (AttrStr (nootref idx)) (soup st) in
  let note_id := fragment note_href in
  let carries n := is_tag h n && attr_matches h (lit "id") note_id n = true in
  (hash ∉ note_id)
  ∧ ((note_href = note_id ∧ hash ∉ note_href)
     ∨ ∃ pre, note_href = pre ++ hash :: note_id)
  ∧ (∀ n v, dict_get (lit "id") (attrs h n) = Some (AttrStr v) →
            carries n ↔ v = note_id)
  ∧ (∀ d, find_id h note_id = Some d ↔
          ∃ before after,
            descendants h root = before ++ d :: after
            ∧ carries d ∧ Forall (λ n, ¬ carries n) before)
  ∧ (find_id h note_id = None ↔ Forall (λ n, ¬ carries n) (descendants h root))
  ∧ (wf (soup st) → ∀ n, n ∈ descendants h root ↔ below h root n)
  ∧ process_noteref need_jump idx noteref st =
      match find_id h note_id with
      | None => Ok (State h (processed_notes st))
      | Some note_text =>
          let* h := mark_pair noteref note_text h in
          let* h := replace_content note_text h in
          let* h := add_jump need_jump idx noteref note_text h in
          Ok (State h (S (processed_notes st)))
      end.
Proof.
  intros Hhref h note_id carries.
  destruct (fragment_spec note_href) as [Hno Hsplit].
  split_and!.
  - done.
  - done.
  - intros n v Hv. unfold carries, attr_matches. rewrite Hv. simpl.
    assert (is_tag h n = true) as ->.
    { unfold is_tag, name. unfold attrs in Hv.
      by destruct (h !! n) as [[]|]. }
    simpl. by rewrite bool_decide_eq_true.
  - intros d. unfold find_id. apply head_filter_Some.
  - unfold find_id. apply head_filter_None.
  - intros Hwf n. apply descendants_below. apply (h1_wf idx noteref st Hwf).
  - unfold process_noteref. rewrite Hhref. cbn [bind]. fold h. fold note_id.
    by destruct (find_id h note_id).
Qed.

Lemma C7_witness :
  fragment (lit "#Z1") = lit "Z1"
  ∧ find_id (setitem 3 (lit "id") (AttrStr (nootref 1)) popup) (lit "Z1") = Some 10
  ∧ ∃ before after,
      descendants (setitem 3 (lit "id") (AttrStr (nootref 1)) popup) root
      = before ++ 10 :: after.
Proof.
  destruct (C7_resolution false 1 3 (State popup 0) (lit "#Z1") eq_refl)
    as (_ & _ & _ & H & _).
  split; [done|]. split; [done|].
  destruct (proj1 (H 10) eq_refl) as (before & after & Hd & _).
  by exists before, after.
Defined.

(** C8, as the code has it: for a resolved pair and index [idx],
    lines 81-89 never raise, and after them the reference has the
    identifier ["nootref"] followed by [idx] (written without looking at
    the identifiers in use) and for content the marker string alone; the
    definition is named [aside], whatever its name was, and has
    [epub:type="footnote"].  The reference has [epub:type="noteref"]
    when the definition is another node; when the reference is its own
    definition, line 89 has written ["footnote"] over it.  All of this
    but the content holds after the whole iteration as well, when it
    completes, and so does the content when the definition is another
    node; the pair is counted. *)
Theorem C8_rewrite need_jump idx noteref st note_href note_text :
  wf (soup st) →
  getitem (soup st) noteref (lit "href") = Ok (AttrStr note_href) →
  find_id (setitem noteref (lit "id") (AttrStr (nootref idx)) (soup st))
          (fragment note_href) = Some note_text →
  let rewritten h :=
    dict_get (lit "id") (attrs h noteref)
    = Some (AttrStr (lit "nootref" ++ str_of_nat idx))
    ∧ dict_get (lit "epub:type") (attrs h noteref)
      = Some (AttrStr (if decide (noteref = note_text)
                       then lit "footnote" else lit "noteref"))
    ∧ name h note_text = Some (lit "aside")
    ∧ dict_get (lit "epub:type") (attrs h note_text) = Some (AttrStr (lit "footnote")) in
  let glyph h := ∃ t, contents h noteref = [t] ∧ string_value h t = Some marker in
  (∃ h, mark_pair noteref note_text
          (setitem noteref (lit "id") (AttrStr (nootref idx)) (soup st)) = Ok h
        ∧ rewritten h ∧ glyph h)
  ∧ (∀ st', process_noteref need_jump idx noteref st = Ok st' →
            rewritten (soup st') ∧ processed_notes st' = S (processed_notes st)
            ∧ (noteref ≠ note_text → glyph (soup st'))).
Proof.
  intros Hwf Hhref Hfind.
  exact (process_noteref_rewritten need_jump idx noteref st note_href note_text
           Hwf Hhref Hfind).
Qed.

Lemma C8_witness :
  ∃ st',
    process_noteref false 1 3 (State popup 0) = Ok st'
    ∧ dict_get (lit "id") (attrs (soup st') 3) = Some (AttrStr (lit "nootref1"))
    ∧ dict_get (lit "epub:type") (attrs (soup st') 3) = Some (AttrStr (lit "noteref"))
    ∧ (∃ t, contents (soup st') 3 = [t] ∧ string_value (soup st') t = Some marker)
    ∧ name (soup st') 10 = Some (lit "aside")
    ∧ dict_get (lit "epub:type") (attrs (soup st') 10) = Some (AttrStr (lit "footnote"))
    ∧ processed_notes st' = 1.
Proof.
  destruct (C8_rewrite false 1 3 (State popup 0) (lit "#Z1") 10 popup_wf eq_refl eq_refl)
    as [_ H].
  eexists. split; [by vm_compute|].
  match goal with |- context [soup ?s] => destruct (H s) as (Hrw & Hn & Hg) end;
    [by vm_compute|].
  destruct Hrw as (R1 & R2 & R4 & R5). split_and!; try done.
  apply Hg. lia.
Defined.

(** C8 as stated fails: the link of the reference of [self_reference]
    names the identifier that line 81 is about to give it.  No node has
    that identifier in the document, but the lookup of line 83 runs
    after line 81 and finds the reference itself: the pair is resolved
    and counted, and the reference ends as an [aside] with
    [epub:type="footnote"], not marked as a note reference. *)
Lemma C8_counterexample :
  getitem self_reference 3 (lit "href") = Ok (AttrStr (lit "#nootref1"))
  ∧ find_id self_reference (fragment (lit "#nootref1")) = None
  ∧ find_id (setitem 3 (lit "id") (AttrStr (nootref 1)) self_reference)
            (fragment (lit "#nootref1")) = Some 3
  ∧ ∃ st',
      process_noteref false 1 3 (State self_reference 0) = Ok st'
      ∧ processed_notes st' = 1
      ∧ dict_get (lit "epub:type") (attrs (soup st') 3) = Some (AttrStr (lit "footnote"))
      ∧ dict_get (lit "epub:type") (attrs (soup st') 3) ≠ Some (AttrStr (lit "noteref"))
      ∧ name (soup st') 3 = Some (lit "aside").
Proof.
  split_and!; try done. eexists. split; [by vm_compute|].
  by split_and!.
Qed.

(** C9: when there is at least one candidate and the loop has run
    through, the sweep of lines 112-113 runs on the tree the loop left,
    never raises, and leaves no [p] with the class [note] in the tree:
    each one that was in the tree after the loop is out of it, whether
    a pair touched it or not, and the returned markup is the
    serialization of that swept tree. *)
Theorem C9_sweep BeautifulSoup str_soup need_jump html_content h c cs st :
  wf (BeautifulSoup html_content) →
  add_namespace (BeautifulSoup html_content) = Ok h →
  find_footrefs true h = Ok (c :: cs) →
  process_all need_jump (enumerate (c :: cs) 1) (State h 0) = Ok st →
  ∃ h',
    remove_notes (soup st) = Ok h'
    ∧ create_popup_footnotes BeautifulSoup str_soup need_jump true html_content
      = Ok (Outcome (str_soup h')
              [ lit "Found " ++ str_of_nat (length (c :: cs))
                  ++ lit " footnotes in the document.";
                lit "Processed " ++ str_of_nat (processed_notes st)
                  ++ lit " footnotes." ])
    ∧ (∀ n, n ∈ descendants h' root → is_note_paragraph h' n = false)
    ∧ (∀ n, below h' root n → is_note_paragraph h' n = false)
    ∧ (∀ n, n ∈ descendants (soup st) root →
            is_note_paragraph (soup st) n = true → n ∉ descendants h' root)
    ∧ same_data (soup st) h'.
Proof.
  intros Hwf0 Hns Hrefs Hloop.
  destruct (add_namespace_wf _ _ Hns Hwf0) as [Hwf _].
  destruct (process_all_wf need_jump _ (State h 0) st Hwf Hloop) as [Hwfst _].
  destruct (remove_notes_spec (soup st) Hwfst) as (h' & Hrm & Hwf' & Hdata & Hclean & Hgone).
  exists h'. split_and!.
  - done.
  - unfold create_popup_footnotes. rewrite Hns. cbn [bind]. rewrite Hrefs.
    cbn [bind]. rewrite Hloop. cbn [bind]. by rewrite Hrm.
  - done.
  - intros n Hn. by apply Hclean, descendants_below.
  - intros n Hn Hnote. apply Hgone. unfold find_all_class.
    apply list_elem_of_filter. by split.
  - done.
Qed.

Lemma C9_witness :
  ∃ st h',
    process_all false (enumerate [3] 1) (State note_list_ns 0) = Ok st
    ∧ remove_notes (soup st) = Ok h'
    ∧ is_note_paragraph (soup st) 8 = true
    ∧ (8 ∉ descendants h' root)
    ∧ (∀ n, n ∈ descendants h' root → is_note_paragraph h' n = false).
Proof.
  destruct (process_all false (enumerate [3] 1) (State note_list_ns 0))
    as [st|] eqn:Hst; [|by vm_compute in Hst].
  destruct (C9_sweep (λ _, note_list) render false [] note_list_ns 3 [] st note_list_wf)
    as (h' & Hrm & _ & Hclean & _ & Hgone & _);
    [by vm_compute|by vm_compute|exact Hst|].
  exists st, h'. vm_compute in Hst. injection Hst as <-.
  split; [done|]. split; [exact Hrm|]. split; [by vm_compute|].
  split; [|exact Hclean]. apply Hgone; [|by vm_compute].
  apply (bool_decide_eq_true_1 _). by vm_compute.
Defined.

(** C10, as the code has it: the rule [a.footnote-ref] stands twice
    in the built-in list (first and fourth), so a node it selects occurs
    at least twice among the candidates that [find_footrefs] returns.
    When the loop runs through, the node is processed at an earlier and
    at its last occurrence, each time with that occurrence's index: each
    time it gets that index's identifier; each time its target resolves
    in the tree as the earlier iterations left it, the pair is rewritten
    (role, marker, [aside], ["footnote"]) and counted, and with the
    jump-back option a link to that identifier is created, which still
    has this target when the loop ends; each time the target does not
    resolve there, only the identifier is written.  The later identifier
    replaces the earlier one and is the one the node has at the end, and
    then no node of the tree carries the earlier identifier, unless a
    node of the document had it from the start: a link created at the
    earlier occurrence points at nothing. *)
Theorem C10_duplicate_rule need_jump h n footrefs st_end :
  wf h → n ∈ select h a_footnote_ref →
  find_footrefs true h = Ok footrefs →
  process_all need_jump (enumerate footrefs 1) (State h 0) = Ok st_end →
  foot_ref_tags_selectors !! 0 = Some a_footnote_ref
  ∧ foot_ref_tags_selectors !! 3 = Some a_footnote_ref
  ∧ 2 ≤ occurrences n footrefs
  ∧ ∃ l1 l2 l3 st_a st_b st_c st_d,
      footrefs = l1 ++ n :: l2 ++ n :: l3 ∧ (n ∉ l3)
      ∧ let i := S (length l1) in
        let j := S (S (length l1 + length l2)) in
        let rewritten_at k st st' :=
          ∀ note_href note_text,
            getitem (soup st) n (lit "href") = Ok (AttrStr note_href) →
            find_id (setitem n (lit "id") (AttrStr (nootref k)) (soup st))
                    (fragment note_href) = Some note_text →
            dict_get (lit "epub:type") (attrs (soup st') n)
            = Some (AttrStr (if decide (n = note_text)
                             then lit "footnote" else lit "noteref"))
            ∧ (n ≠ note_text →
               ∃ t, contents (soup st') n = [t] ∧ string_value (soup st') t = Some marker)
            ∧ name (soup st') note_text = Some (lit "aside")
            ∧ dict_get (lit "epub:type") (attrs (soup st') note_text)
              = Some (AttrStr (lit "footnote"))
            ∧ processed_notes st' = S (processed_notes st)
            ∧ (need_jump = true →
               ∃ link,
                 length (soup st) ≤ link
                 ∧ name (soup st') link = Some (lit "a")
                 ∧ attrs (soup st') link = [(lit "href", AttrStr (hash :: nootref k))]
                 ∧ dict_get (lit "href") (attrs (soup st_end) link)
                   = Some (AttrStr (hash :: nootref k))) in
        let skipped_at k st st' :=
          ∀ note_href,
            getitem (soup st) n (lit "href") = Ok (AttrStr note_href) →
            find_id (setitem n (lit "id") (AttrStr (nootref k)) (soup st))
                    (fragment note_href) = None →
            st' = State (setitem n (lit "id") (AttrStr (nootref k)) (soup st))
                        (processed_notes st) in
        process_all need_jump (enumerate l1 1) (State h 0) = Ok st_a
        ∧ process_noteref need_jump i n st_a = Ok st_b
        ∧ process_all need_jump (enumerate l2 (S i)) st_b = Ok st_c
        ∧ process_noteref need_jump j n st_c = Ok st_d
        ∧ process_all need_jump (enumerate l3 (S j)) st_d = Ok st_end
        ∧ dict_get (lit "id") (attrs (soup st_b) n) = Some (AttrStr (nootref i))
        ∧ dict_get (lit "id") (attrs (soup st_d) n) = Some (AttrStr (nootref j))
        ∧ dict_get (lit "id") (attrs (soup st_end) n) = Some (AttrStr (nootref j))
        ∧ nootref i ≠ nootref j
        ∧ rewritten_at i st_a st_b ∧ skipped_at i st_a st_b
        ∧ rewritten_at j st_c st_d ∧ skipped_at j st_c st_d
        ∧ ((∀ m, attr_matches h (lit "id") (nootref i) m = false) →
           find_id (soup st_end) (nootref i) = None).
Proof.
  intros Hwf Hsel Hfr Hloop.
  split; [done|]. split; [done|].
  unfold find_footrefs in Hfr. injection Hfr as Hfr.
  assert (Hrange : ∀ r, r ∈ footrefs → r < length h).
  { intros r Hr. rewrite <- Hfr in Hr.
    apply select_each_elem in Hr as (_ & _ & Hd & _). by apply descendants_in_range. }
  pose proof Hsel as Hsel'.
  apply list_elem_of_split in Hsel as (a & b & Hab).
  assert (∃ m1 m2, footrefs = a ++ n :: m1 ++ n :: m2) as (m1 & m2 & Hsplit).
  { exists (b ++ concat (select h <$>
                  [Simple (Compound (lit "a") [lit "footnote"]);
                   Simple (Compound (lit "a") [lit "footnote-backref"])]) ++ a),
           (b ++ concat (select h <$>
                  [Child (Compound (lit "span") [lit "math-super"]) (Compound (lit "a") []);
                   Simple (Compound (lit "a") [lit "footnote-link"]);
                   Child (Compound (lit "sup") [lit "suptext"]) (Compound (lit "a") [])])).
    rewrite <- Hfr, select_each_flat. unfold foot_ref_tags_selectors. simpl.
    rewrite Hab. by rewrite <- !app_assoc, !app_nil_r. }
  split.
  { rewrite Hsplit, occurrences_app, occurrences_cons_eq, occurrences_app,
      occurrences_cons_eq. lia. }
  set (l1 := a) in *.
  assert (Hin : n ∈ m1 ++ n :: m2) by set_solver.
  destruct (list_elem_of_split_r _ _ Hin) as (l2 & l3 & Hl & Hl3).
  rewrite Hl in Hsplit. clear Hin Hl m1 m2.
  pose proof Hloop as Hloop0.
  rewrite Hsplit, process_all_at in Hloop.
  apply bind_Ok in Hloop as (st_a & Ha & Hloop).
  apply bind_Ok in Hloop as (st_b & Hb & Hloop).
  rewrite process_all_at in Hloop.
  apply bind_Ok in Hloop as (st_c & Hc & Hloop).
  apply bind_Ok in Hloop as (st_d & Hd & Hend).
  cbn [Nat.add] in Hb, Hc, Hd, Hend.
  replace (S (S (length l1 + length l2))) with (S (S (length l1) + length l2))
    by lia.
  destruct (process_all_wf need_jump _ (State h 0) st_a Hwf Ha) as [Hwfa Hlena].
  destruct (process_noteref_wf _ _ _ _ _ Hwfa Hb) as (Hwfb & Hlenb & Hidb & _).
  destruct (process_all_wf need_jump _ st_b st_c Hwfb Hc) as [Hwfc Hlenc].
  pose proof Hd as Hd'.
  destruct (process_noteref_wf _ _ _ _ _ Hwfc Hd') as (Hwfd & Hlend & Hidd & _).
  destruct (process_all_wf need_jump _ st_d st_end Hwfd Hend) as [Hwfe Hlene].
  assert (Hhref : lit "href" ≠ lit "id") by by apply lit_neq.
  assert (Hhref' : lit "href" ≠ lit "epub:type") by by apply lit_neq.
  assert (Hrw : ∀ k st st',
            wf (soup st) → process_noteref need_jump k n st = Ok st' →
            (∀ link, link < length (soup st') →
               dict_get (lit "href") (attrs (soup st_end) link)
               = dict_get (lit "href") (attrs (soup st') link)) →
            ∀ note_href note_text,
              getitem (soup st) n (lit "href") = Ok (AttrStr note_href) →
              find_id (setitem n (lit "id") (AttrStr (nootref k)) (soup st))
                      (fragment note_href) = Some note_text →
              dict_get (lit "epub:type") (attrs (soup st') n)
              = Some (AttrStr (if decide (n = note_text)
                               then lit "footnote" else lit "noteref"))
              ∧ (n ≠ note_text →
                 ∃ t, contents (soup st') n = [t] ∧ string_value (soup st') t = Some marker)
              ∧ name (soup st') note_text = Some (lit "aside")
              ∧ dict_get (lit "epub:type") (attrs (soup st') note_text)
                = Some (AttrStr (lit "footnote"))
              ∧ processed_notes st' = S (processed_notes st)
              ∧ (need_jump = true →
                 ∃ link,
                   length (soup st) ≤ link
                   ∧ name (soup st') link = Some (lit "a")
                   ∧ attrs (soup st') link = [(lit "href", AttrStr (hash :: nootref k))]
                   ∧ dict_get (lit "href") (attrs (soup st_end) link)
                     = Some (AttrStr (hash :: nootref k)))).
  { intros k st st' Hwfs Hp Hkeep note_href note_text Hh Hf.
    destruct (process_noteref_rewritten need_jump k n st note_href note_text Hwfs Hh Hf)
      as [_ Hr].
    destruct (Hr st' Hp) as ((_ & R2 & R3 & R4) & Hcount & Hg).
    split_and!; try done.
    intros ->.
    destruct (process_noteref_link k n st note_href note_text st' Hwfs Hh Hf Hp)
      as (link & Hl1 & Hl2 & Hnm & Hat).
    exists link. split_and!; try done.
    rewrite Hkeep by done. by rewrite Hat. }
  assert (Hsk : ∀ k st st',
            process_noteref need_jump k n st = Ok st' →
            ∀ note_href,
              getitem (soup st) n (lit "href") = Ok (AttrStr note_href) →
              find_id (setitem n (lit "id") (AttrStr (nootref k)) (soup st))
                      (fragment note_href) = None →
              st' = State (setitem n (lit "id") (AttrStr (nootref k)) (soup st))
                          (processed_notes st)).
  { intros k st st' Hp note_href Hh Hf.
    rewrite (process_noteref_unresolved need_jump k n st note_href Hh Hf) in Hp.
    by injection Hp as <-. }
  exists l1, l2, l3, st_a, st_b, st_c, st_d. cbn zeta. split_and!; try done.
  - rewrite <- Hidd.
    apply (process_all_id_frame need_jump _ n st_d st_end Hwfd Hend).
    + apply process_noteref_inv in Hd' as (s & Hs & _).
      apply getitem_is_tag, is_tag_in_range in Hs. lia.
    + by rewrite enumerate_snd.
  - intros Heq%nootref_inj. lia.
  - apply (Hrw _ _ _ Hwfa Hb). intros link Hlink.
    destruct (process_all_frame need_jump _ _ _ Hwfd Hend link) as (A3 & _); [lia|].
    destruct (process_noteref_frame need_jump _ _ _ _ Hwfc Hd link) as (A2 & _); [lia|].
    destruct (process_all_frame need_jump _ _ _ Hwfb Hc link Hlink) as (A1 & _).
    by rewrite A3, A2, A1.
  - by apply Hsk.
  - apply (Hrw _ _ _ Hwfc Hd). intros link Hlink.
    destruct (process_all_frame need_jump _ _ _ Hwfd Hend link Hlink) as (A3 & _).
    by rewrite A3.
  - by apply Hsk.
  - intros Hfree. unfold find_id. apply head_filter_None, Forall_forall.
    intros m _ [_ Hm]%andb_true_iff. revert Hm.
    unfold attr_matches.
    destruct (process_all_ids need_jump footrefs 1 (State h 0) st_end m Hwf Hloop0 Hrange)
      as [[_ ->]|(k & Hk & Hlast & ->)].
    + case_decide; [|done]. specialize (Hfree m). unfold attr_matches in Hfree.
      simpl. by rewrite Hfree.
    + simpl. rewrite bool_decide_eq_true. intros Heq%nootref_inj.
      assert (k = length l1) as -> by lia.
      rewrite Hsplit in Hk, Hlast.
      rewrite list_lookup_middle in Hk by done. injection Hk as <-.
      apply Hlast.
      replace (l1 ++ n :: l2 ++ n :: l3) with ((l1 ++ [n]) ++ l2 ++ n :: l3)
        by (by rewrite <- app_assoc).
      rewrite drop_app_length'.
      * apply elem_of_app. right. by left.
      * rewrite length_app. simpl. lia.
Qed.

Lemma C10_witness :
  ∃ st_b st_end link,
    find_footrefs true popup = Ok [3; 3]
    ∧ process_noteref true 1 3 (State popup 0) = Ok st_b
    ∧ process_all true (enumerate [3; 3] 1) (State popup 0) = Ok st_end
    ∧ 2 ≤ occurrences 3 [3; 3]
    ∧ dict_get (lit "epub:type") (attrs (soup st_b) 3) = Some (AttrStr (lit "noteref"))
    ∧ name (soup st_b) 10 = Some (lit "aside")
    ∧ processed_notes st_b = 1
    ∧ dict_get (lit "href") (attrs (soup st_end) link) = Some (AttrStr (lit "#nootref1"))
    ∧ dict_get (lit "id") (attrs (soup st_end) 3) = Some (AttrStr (lit "nootref2"))
    ∧ find_id (soup st_end) (lit "nootref1") = None.
Proof.
  destruct (process_all true (enumerate [3; 3] 1) (State popup 0))
    as [st_end|] eqn:Hend; [|by vm_compute in Hend].
  destruct (C10_duplicate_rule true popup 3 [3; 3] st_end popup_wf)
    as (_ & _ & H2 & l1 & l2 & l3 & st_a & st_b & st_c & st_d & Hsplit & Hl3
        & Ha & Hb & Hc & Hd & He & _ & _ & Hid & _ & Hrw & _ & _ & _ & Hdangling).
  { apply (bool_decide_eq_true_1 _). by vm_compute. }
  { by vm_compute. }
  { exact Hend. }
  destruct (twice_inv 3 l1 l2 l3 Hsplit) as (-> & -> & ->).
  cbn [enumerate process_all] in Ha. injection Ha as <-.
  assert (Hi : nootref (S (length (@nil nat))) = lit "nootref1") by by vm_compute.
  assert (Hj : nootref (S (S (length (@nil nat) + length (@nil nat)))) = lit "nootref2")
    by by vm_compute.
  rewrite Hi in Hrw, Hdangling. rewrite Hj in Hid.
  destruct (Hrw (lit "#Z1") 10) as (R1 & _ & R3 & _ & R5 & Hlink);
    [by vm_compute|by vm_compute|].
  destruct (Hlink eq_refl) as (link & _ & _ & _ & Hhref).
  exists st_b, st_end, link.
  split; [by vm_compute|]. split; [exact Hb|]. split; [done|].
  split; [exact H2|]. split; [exact R1|]. split; [exact R3|].
  split; [exact R5|]. split; [exact Hhref|]. split; [exact Hid|].
  apply Hdangling. intros m.
  do 12 (destruct m as [|m]; [by vm_compute|]). by vm_compute.
Defined.

(** C10 as stated fails: the second reference of [shared_refs]
    matches [a.footnote-ref] and its target [Z2] resolves in the
    document, but the first rewrite removes the paragraph that holds
    both definitions.  The loop completes, and the second reference is
    rewritten at neither of its two occurrences: it has no role, its
    text is unchanged, and its definition is still a plain [span]. *)
Lemma C10_counterexample :
  5 ∈ select shared_refs a_footnote_ref
  ∧ getitem shared_refs 5 (lit "href") = Ok (AttrStr (lit "#Z2"))
  ∧ find_id shared_refs (fragment (lit "#Z2")) = Some 11
  ∧ find_footrefs true shared_refs = Ok [3; 5; 3; 5]
  ∧ ∃ st_end,
      process_all false (enumerate [3; 5; 3; 5] 1) (State shared_refs 0) = Ok st_end
      ∧ processed_notes st_end = 2
      ∧ dict_get (lit "epub:type") (attrs (soup st_end) 5) = None
      ∧ contents (soup st_end) 5 = [6]
      ∧ string_value (soup st_end) 6 = Some (lit "2")
      ∧ name (soup st_end) 11 = Some (lit "span")
      ∧ dict_get (lit "epub:type") (attrs (soup st_end) 11) = None.
Proof.
  split; [apply (bool_decide_eq_true_1 _); by vm_compute|].
  split_and!; try done. eexists. split; [by vm_compute|]. by split_and!.
Qed.
